(** * check_syntax.py: the bracket-balance scanner [check_balance]

    A shallow embedding of [check_balance] (src/check_syntax.py) and the
    properties of its skip-aware state machine and delimiter stack.

    Text is a Python [str]: a sequence of Unicode code points, modelled as
    [list N].  Line and column numbers are Python ints that only count
    upwards from 0, modelled as [nat].  Reading the file is outside the
    model: [check_balance] starts from the text that [f.read()] returned
    (in text mode, so with \r\n and \r already turned into \n), and an
    outcome stands for the lines that the call prints. *)

From Stdlib Require Import String Ascii List NArith Arith Bool Lia Sorted.
Import ListNotations.

(** ** Characters and text *)

Abbreviation pychar := N (only parsing).
Abbreviation pystr := (list N) (only parsing).

Definition ord (a : ascii) : pychar := N_of_ascii a.

(** A Python string literal. *)
Definition lit (s : string) : pystr := map ord (list_ascii_of_string s).

Definition LF : pychar := 10%N.
Definition CR : pychar := 13%N.

(** The single quote, the double quote, the backtick and the backslash. *)
Definition squote : pychar := 39%N.
Definition dquote : pychar := 34%N.
Definition backtick : pychar := 96%N.
Definition backslash : pychar := 92%N.
Definition slash : pychar := ord "/".
Definition star : pychar := ord "*".
Definition lbrace : pychar := ord "{".
Definition rbrace : pychar := ord "}".
Definition lparen : pychar := ord "(".
Definition rparen : pychar := ord ")".
Definition lbracket : pychar := ord "[".
Definition rbracket : pychar := ord "]".

(** The test that starts a string: [char] is one of the three quotes. *)
Definition is_quote (c : pychar) : bool :=
  N.eqb c squote || N.eqb c dquote || N.eqb c backtick.

(** The test for an opening bracket: brace, parenthesis or square bracket. *)
Definition is_opener (c : pychar) : bool :=
  N.eqb c lbrace || N.eqb c lparen || N.eqb c lbracket.

(** The test for a closing bracket. *)
Definition is_closer (c : pychar) : bool :=
  N.eqb c rbrace || N.eqb c rparen || N.eqb c rbracket.

(** The dict from each opening bracket to its closing bracket; a lookup
    of a missing key raises [KeyError], modelled by [None]. *)
Definition closer_of (c : pychar) : option pychar :=
  if N.eqb c lbrace then Some rbrace
  else if N.eqb c lparen then Some rparen
  else if N.eqb c lbracket then Some rbracket
  else None.

(** ** [str.splitlines()]

    The line boundaries of a Python [str]: \n, \r, \r\n, \v, \f, \x1c, \x1d,
    \x1e, \x85, U+2028 and U+2029.  The boundaries are not kept, \r\n counts
    as one boundary, and a text that ends with a boundary has no empty last
    line. *)
Definition is_linebreak (c : pychar) : bool :=
  N.eqb c 10 || N.eqb c 11 || N.eqb c 12 || N.eqb c 13 ||
  N.eqb c 28 || N.eqb c 29 || N.eqb c 30 || N.eqb c 133 ||
  N.eqb c 8232 || N.eqb c 8233.

Fixpoint splitlines_from (cur : pystr) (s : pystr) : list pystr :=
  match s with
  | [] => match cur with [] => [] | _ => [rev cur] end
  | c :: rest =>
      if N.eqb c CR then
        match rest with
        | c' :: rest' =>
            if N.eqb c' LF then rev cur :: splitlines_from [] rest'
            else rev cur :: splitlines_from [] rest
        | [] => rev cur :: splitlines_from [] rest
        end
      else if is_linebreak c then rev cur :: splitlines_from [] rest
      else splitlines_from (c :: cur) rest
  end.

Definition splitlines (s : pystr) : list pystr := splitlines_from [] s.

(** ** The scanner's variables *)

(** An entry of [stack]: the tuple [(char, i + 1, j + 1)]. *)
Record frame := Frame { kind : pychar; fline : nat; fcol : nat }.

(** The local variables of [check_balance] that live across loop
    iterations.  [string_char] is the empty string (no character,
    [None]) until the first string starts.  [stack] is a Python list: [append] adds at the
    end, [pop] removes from the end, [stack[0]] is the oldest entry. *)
Record state := State {
  stack : list frame;
  in_string : bool;
  string_char : option pychar;
  in_comment : bool;
  in_multiline_comment : bool
}.

Definition init : state :=
  {| stack := []; in_string := false; string_char := None;
     in_comment := false; in_multiline_comment := false |}.

Definition set_stack (st : list frame) (s : state) : state :=
  {| stack := st; in_string := in_string s; string_char := string_char s;
     in_comment := in_comment s;
     in_multiline_comment := in_multiline_comment s |}.

Definition set_in_string (b : bool) (s : state) : state :=
  {| stack := stack s; in_string := b; string_char := string_char s;
     in_comment := in_comment s;
     in_multiline_comment := in_multiline_comment s |}.

Definition set_string_char (c : pychar) (s : state) : state :=
  {| stack := stack s; in_string := in_string s; string_char := Some c;
     in_comment := in_comment s;
     in_multiline_comment := in_multiline_comment s |}.

Definition set_in_comment (b : bool) (s : state) : state :=
  {| stack := stack s; in_string := in_string s;
     string_char := string_char s; in_comment := b;
     in_multiline_comment := in_multiline_comment s |}.

Definition set_in_multiline_comment (b : bool) (s : state) : state :=
  {| stack := stack s; in_string := in_string s;
     string_char := string_char s; in_comment := in_comment s;
     in_multiline_comment := b |}.

(** [char == string_char] *)
Definition eq_string_char (c : pychar) (q : option pychar) : bool :=
  match q with
  | Some q' => N.eqb c q'
  | None => false
  end.

(** [stack.pop()]: the last entry and the entries before it; [None] on an
    empty list (the source tests [not stack] first). *)
Definition pop (st : list frame) : option (frame * list frame) :=
  match rev st with
  | [] => None
  | f :: r => Some (f, rev r)
  end.

(** [stack[-5:]] and the like: the last [n] entries, all of them when there
    are fewer. *)
Definition last_slice (n : nat) (st : list frame) : list frame :=
  skipn (length st - n) st.

(** ** What one call prints

    Every way [check_balance] ends, with the values its [print] shows:
    - [NoUnbalanced]: the line No unbalanced brackets found.
    - [Unexpected char line col]: the line Error: Unexpected, with the
      character, its line and its column
    - [Mismatched char line col expected last_char last_line last_col]:
      the line Error: Mismatched, with the character, its line and column,
      the expected closing bracket, and the opening bracket popped from the
      stack with its line and column
    - [Unclosed first_unclosed total last_few]: the line Error: Unclosed
      for [stack[0]], then Total unclosed: with [len(stack)], then
      Last few unclosed: with [stack[-5:]]
    - [RaisedKeyError k]: the dict lookup of [last_char] failed. *)
Inductive outcome :=
| NoUnbalanced
| Unexpected (char : pychar) (line col : nat)
| Mismatched (char : pychar) (line col : nat) (expected : pychar)
             (last_char : pychar) (last_line last_col : nat)
| Unclosed (first_unclosed : frame) (total : nat) (last_few : list frame)
| RaisedKeyError (k : pychar).

(** ** One iteration of the [while] loop *)

Inductive step_result :=
| Continue (j : nat) (s : state)
| Return (o : outcome).

(** The part under [# Check brackets], up to the final [j += 1]. *)
Definition check_brackets (i j : nat) (char : pychar) (s : state)
  : step_result :=
  if is_opener char then
    Continue (j + 1) (set_stack (stack s ++ [Frame char (i + 1) (j + 1)]) s)
  else if is_closer char then
    match pop (stack s) with
    | None => Return (Unexpected char (i + 1) (j + 1))
    | Some (Frame last_char last_line last_col, st') =>
        match closer_of last_char with
        | None => Return (RaisedKeyError last_char)
        | Some expected =>
            if negb (N.eqb char expected) then
              Return (Mismatched char (i + 1) (j + 1) expected
                                 last_char last_line last_col)
            else Continue (j + 1) (set_stack st' s)
        end
    end
  else Continue (j + 1) s.

(** The body of [while j < len(line)], entered with [j < len(line)]:
    either the loop goes on with a new [j] and new variables, or the
    function returns. *)
Definition step (i : nat) (line : pystr) (j : nat) (s : state)
  : step_result :=
  let char := nth j line 0%N in
  if in_comment s then
    if Nat.eqb j (length line - 1)
    then Continue (j + 1) (set_in_comment false s)
    else Continue (j + 1) s
  else if in_multiline_comment s then
    if N.eqb char star && (j + 1 <? length line)
       && N.eqb (nth (j + 1) line 0%N) slash
    then Continue (j + 1 + 1) (set_in_multiline_comment false s)
    else Continue (j + 1) s
  else if in_string s then
    if N.eqb char backslash then Continue (j + 1 + 1) s
    else if eq_string_char char (string_char s)
    then Continue (j + 1) (set_in_string false s)
    else Continue (j + 1) s
  else if is_quote char then
    Continue (j + 1) (set_string_char char (set_in_string true s))
  else if N.eqb char slash && (j + 1 <? length line) then
    if N.eqb (nth (j + 1) line 0%N) slash
    then Continue (j + 1) (set_in_comment true s)
    else if N.eqb (nth (j + 1) line 0%N) star
    then Continue (j + 1) (set_in_multiline_comment true s)
    else check_brackets i j char s
  else check_brackets i j char s.

(** ** The loops *)

(** [while j < len(line)]: [fuel] bounds the number of iterations; [None]
    means the bound was too small ([while_loop_total] shows that
    [length line] is always enough).  [inl s] is a normal exit of the
    loop, [inr o] a [return] from inside it. *)
Fixpoint while_loop (fuel : nat) (i : nat) (line : pystr) (j : nat)
  (s : state) : option (state + outcome) :=
  if j <? length line then
    match fuel with
    | 0 => None
    | S fuel' =>
        match step i line j s with
        | Continue j' s' => while_loop fuel' i line j' s'
        | Return o => Some (inr o)
        end
    end
  else Some (inl s).

(** [for i, line in enumerate(lines)], from index [i] on, with the
    [in_comment = False] that ends each iteration. *)
Fixpoint for_loop (i : nat) (lines : list pystr) (s : state)
  : option (state + outcome) :=
  match lines with
  | [] => Some (inl s)
  | line :: rest =>
      match while_loop (length line) i line 0 s with
      | Some (inl s') => for_loop (S i) rest (set_in_comment false s')
      | r => r
      end
  end.

(** The report after the loops: [if stack: ... else: ...]. *)
Definition report (st : list frame) : outcome :=
  match st with
  | [] => NoUnbalanced
  | first_unclosed :: _ =>
      Unclosed first_unclosed (length st) (last_slice 5 st)
  end.

(** What follows the [for] loop: the report when the loop ended normally,
    nothing more after a [return]. *)
Definition finish (r : option (state + outcome)) : option outcome :=
  match r with
  | Some (inl s) => Some (report (stack s))
  | Some (inr o) => Some o
  | None => None
  end.

(** The scanner on the lines of the text. *)
Definition scan_lines (lines : list pystr) : option outcome :=
  finish (for_loop 0 lines init).

(** [check_balance], from the text of the file on. *)
Definition check_balance (content : pystr) : option outcome :=
  scan_lines (splitlines content).

(** ** The lexical mode

    The four flags are tested in a fixed order at the top of the loop body;
    the first one that is set decides which branch runs. *)
Inductive Mode :=
| Normal
| InLineComment
| InBlockComment
| InString (q : option pychar).

Definition mode_of (s : state) : Mode :=
  if in_comment s then InLineComment
  else if in_multiline_comment s then InBlockComment
  else if in_string s then InString (string_char s)
  else Normal.

(** ** The scan as a machine

    A configuration is a point of the scan at the test of the [while]
    loop: the line index [i], the column index [j] and the variables. *)
Record config := Config { ci : nat; cj : nat; cs : state }.

Inductive status :=
| Running (c : config)
| Halted (o : outcome).

Definition start : config := Config 0 0 init.

(** One move: an iteration of the [while] loop when [j < len(line)], the
    end of the [for] iteration otherwise, and the report when the lines
    are used up. *)
Definition machine_step (lines : list pystr) (c : config) : status :=
  match nth_error lines (ci c) with
  | None => Halted (report (stack (cs c)))
  | Some line =>
      if cj c <? length line then
        match step (ci c) line (cj c) (cs c) with
        | Continue j' s' => Running (Config (ci c) j' s')
        | Return o => Halted o
        end
      else Running (Config (S (ci c)) 0 (set_in_comment false (cs c)))
  end.

(** The configuration after [n] moves. *)
Fixpoint run (n : nat) (lines : list pystr) : status :=
  match n with
  | 0 => Running start
  | S n' =>
      match run n' lines with
      | Running c => machine_step lines c
      | Halted o => Halted o
      end
  end.

(** The character under the scan at a configuration, when there is one. *)
Definition current (lines : list pystr) (c : config) : option pychar :=
  match nth_error lines (ci c) with
  | Some line => nth_error line (cj c)
  | None => None
  end.

(** A bracket that is examined in Normal mode, with its 1-based place. *)
Definition event_at (lines : list pystr) (c : config) : list frame :=
  match current lines c with
  | Some char =>
      match mode_of (cs c) with
      | Normal =>
          if is_opener char || is_closer char
          then [Frame char (ci c + 1) (cj c + 1)]
          else []
      | _ => []
      end
  | None => []
  end.

(** The brackets examined in Normal mode during the first [n] moves. *)
Fixpoint history (n : nat) (lines : list pystr) : list frame :=
  match n with
  | 0 => []
  | S n' =>
      match run n' lines with
      | Running c => history n' lines ++ event_at lines c
      | Halted _ => history n' lines
      end
  end.

(** A bound on the number of moves: every line counts for its characters
    and two more (a jump past its end, and the move to the next line). *)
Fixpoint extent (lines : list pystr) : nat :=
  match lines with
  | [] => 0
  | line :: rest => length line + 2 + extent rest
  end.

(** How far a configuration is into the text, in the same count. *)
Definition rank (lines : list pystr) (c : config) : nat :=
  extent (firstn (ci c) lines) + cj c.

(** Scan order on configurations: by line, then by column. *)
Definition pos_lt (c1 c2 : config) : Prop :=
  ci c1 < ci c2 \/ (ci c1 = ci c2 /\ cj c1 < cj c2).

Definition pos_le (c1 c2 : config) : Prop :=
  ci c1 < ci c2 \/ (ci c1 = ci c2 /\ cj c1 <= cj c2).

(** ** Nesting, as the words of the specification have it

    The pairs of an opening bracket and its closing bracket, as the
    specification lists them: brace with brace, parenthesis with
    parenthesis, square bracket with square bracket.  This is stated on
    its own, not read off the dict of the code. *)
Inductive matching : pychar -> pychar -> Prop :=
| matching_brace : matching 123%N 125%N
| matching_paren : matching 40%N 41%N
| matching_bracket : matching 91%N 93%N.

(** A history of brackets is balanced when it is built from matching
    pairs that enclose and follow balanced histories. *)
Inductive balanced : list frame -> Prop :=
| balanced_nil : balanced []
| balanced_pair : forall a b o c,
    balanced a -> balanced b ->
    matching (kind o) (kind c) ->
    balanced (a ++ o :: b ++ [c]).

(** [open_in h st]: [st] lists, oldest first, the opening brackets of
    [h] that have no matching closing bracket yet.  Everything between
    and after them is balanced. *)
Inductive open_in : list frame -> list frame -> Prop :=
| open_none : forall b, balanced b -> open_in b []
| open_more : forall h st o b,
    open_in h st -> is_opener (kind o) = true -> balanced b ->
    open_in (h ++ o :: b) (st ++ [o]).

(** The states the scan can be in: at most one flag is set, a string has
    a quote to end it, and the stack holds opening brackets only. *)
Record wf_state (s : state) : Prop := {
  wf_comment : in_comment s = true ->
               in_multiline_comment s = false /\ in_string s = false;
  wf_multiline : in_multiline_comment s = true -> in_string s = false;
  wf_string : in_string s = true ->
              exists q, string_char s = Some q /\ is_quote q = true;
  wf_stack : Forall (fun f => is_opener (kind f) = true) (stack s)
}.

(** The loop with just enough fuel for the rest of the line. *)
Definition rest_of_line (i : nat) (line : pystr) (j : nat) (s : state)
  : option (state + outcome) :=
  while_loop (length line - j) i line j s.

(** What the loops still compute from a configuration on. *)
Definition resume (lines : list pystr) (c : config) : option outcome :=
  finish
    match nth_error lines (ci c) with
    | None => Some (inl (cs c))
    | Some line =>
        match rest_of_line (ci c) line (cj c) (cs c) with
        | Some (inl s') =>
            for_loop (S (ci c)) (skipn (S (ci c)) lines)
                     (set_in_comment false s')
        | r => r
        end
    end.

(** The unmatched opening brackets of a history, computed by replaying
    it: the stack discipline with nothing else around it. *)
Fixpoint replay (st : list frame) (h : list frame)
  : option (list frame) :=
  match h with
  | [] => Some st
  | e :: h' =>
      if is_opener (kind e) then replay (st ++ [e]) h'
      else match pop st with
           | Some (o, st') =>
               match closer_of (kind o) with
               | Some x => if N.eqb x (kind e) then replay st' h' else None
               | None => None
               end
           | None => None
           end
  end.

(** ** Places in the text *)

(** The character at a line and column counted from 1, as the reports
    give them. *)
Definition char_at (lines : list pystr) (l k : nat) : option pychar :=
  match l, k with
  | S l', S k' =>
      match nth_error lines l' with
      | Some line => nth_error line k'
      | None => None
      end
  | _, _ => None
  end.

(** A stack entry that names an opening bracket of the text at the place
    it records. *)
Definition frame_in_text (lines : list pystr) (f : frame) : Prop :=
  is_opener (kind f) = true /\
  char_at lines (fline f) (fcol f) = Some (kind f).

(** Scan order on recorded places. *)
Definition frame_lt (f g : frame) : Prop :=
  fline f < fline g \/ (fline f = fline g /\ fcol f < fcol g).

(** The entry lies before the character under the scan. *)
Definition frame_before (c : config) (f : frame) : Prop :=
  fline f < ci c + 1 \/ (fline f = ci c + 1 /\ fcol f < cj c + 1).

(** The outcomes that come from a [return] inside the loops. *)
Definition is_error (o : outcome) : bool :=
  match o with
  | Unexpected _ _ _ => true
  | Mismatched _ _ _ _ _ _ _ => true
  | _ => false
  end.

(** Case analysis on one iteration. *)
Ltac step_cases H :=
  unfold step, check_brackets in H;
  repeat match type of H with
    | context [if ?b then _ else _] => destruct b eqn:?
    | context [match pop ?x with _ => _ end] =>
        destruct (pop x) as [[[? ? ?] ?]|] eqn:?
    | context [match closer_of ?x with _ => _ end] =>
        destruct (closer_of x) eqn:?
    end;
  inversion H; subst; clear H.

(** * Properties *)

(** ** The stack operations *)

Lemma pop_snoc : forall st f, pop (st ++ [f]) = Some (f, st).
Proof.
  intros st f. unfold pop. rewrite rev_app_distr. simpl.
  now rewrite rev_involutive.
Qed.

Lemma pop_some : forall st f st', pop st = Some (f, st') -> st = st' ++ [f].
Proof.
  intros st f st'. unfold pop.
  destruct (rev st) as [|x r] eqn:E; intros H; [discriminate|].
  injection H as -> <-.
  rewrite <- (rev_involutive st), E. reflexivity.
Qed.

Lemma pop_none : forall st, pop st = None -> st = [].
Proof.
  intros st. unfold pop.
  destruct (rev st) as [|x r] eqn:E; intros H; [|discriminate].
  rewrite <- (rev_involutive st), E. reflexivity.
Qed.

Lemma last_slice_split : forall n st,
  st = firstn (length st - n) st ++ last_slice n st.
Proof. intros. unfold last_slice. now rewrite firstn_skipn. Qed.

Lemma last_slice_length : forall n st,
  length (last_slice n st) = Nat.min n (length st).
Proof. intros. unfold last_slice. rewrite length_skipn. lia. Qed.

(** The slice is the spec's "last up-to-n, most recently opened": the
    first [n] entries counted from the top of the stack. *)
Lemma last_slice_rev : forall n st,
  last_slice n st = rev (firstn n (rev st)).
Proof.
  intros n st. unfold last_slice.
  rewrite firstn_rev, rev_involutive. reflexivity.
Qed.

(** ** The characters *)

Lemma closer_of_opener : forall c,
  is_opener c = true -> exists e, closer_of c = Some e /\ is_closer e = true.
Proof.
  intros c H. unfold is_opener in H. unfold closer_of.
  destruct (N.eqb c lbrace); [eexists; split; [reflexivity|reflexivity]|].
  destruct (N.eqb c lparen); [eexists; split; [reflexivity|reflexivity]|].
  destruct (N.eqb c lbracket); [eexists; split; [reflexivity|reflexivity]|].
  discriminate.
Qed.

Lemma closer_of_some : forall c e,
  closer_of c = Some e -> is_opener c = true.
Proof.
  intros c e. unfold closer_of, is_opener.
  destruct (N.eqb c lbrace); [reflexivity|].
  destruct (N.eqb c lparen); [reflexivity|].
  destruct (N.eqb c lbracket); [reflexivity|discriminate].
Qed.

(** The dict of the code is the table of pairs of the specification. *)
Lemma closer_of_matching : forall o c,
  closer_of o = Some c <-> matching o c.
Proof.
  intros o c. split.
  - unfold closer_of.
    destruct (N.eqb_spec o lbrace) as [->|_];
      [intros H; injection H as <-; constructor|].
    destruct (N.eqb_spec o lparen) as [->|_];
      [intros H; injection H as <-; constructor|].
    destruct (N.eqb_spec o lbracket) as [->|_];
      [intros H; injection H as <-; constructor|discriminate].
  - intros []; reflexivity.
Qed.

Lemma matching_opener : forall o c, matching o c -> is_opener o = true.
Proof. intros o c []; reflexivity. Qed.

Lemma opener_not_quote : forall c, is_opener c = true -> is_quote c = false.
Proof.
  intros c. unfold is_opener, is_quote. intros H.
  apply orb_true_iff in H as [H|H]; [apply orb_true_iff in H as [H|H]|];
    apply N.eqb_eq in H; subst; reflexivity.
Qed.

Lemma closer_not_quote : forall c, is_closer c = true -> is_quote c = false.
Proof.
  intros c. unfold is_closer, is_quote. intros H.
  apply orb_true_iff in H as [H|H]; [apply orb_true_iff in H as [H|H]|];
    apply N.eqb_eq in H; subst; reflexivity.
Qed.

Lemma opener_not_slash : forall c, is_opener c = true -> N.eqb c slash = false.
Proof.
  intros c. unfold is_opener. intros H.
  apply orb_true_iff in H as [H|H]; [apply orb_true_iff in H as [H|H]|];
    apply N.eqb_eq in H; subst; reflexivity.
Qed.

Lemma closer_not_slash : forall c, is_closer c = true -> N.eqb c slash = false.
Proof.
  intros c. unfold is_closer. intros H.
  apply orb_true_iff in H as [H|H]; [apply orb_true_iff in H as [H|H]|];
    apply N.eqb_eq in H; subst; reflexivity.
Qed.

Lemma closer_not_opener : forall c, is_closer c = true -> is_opener c = false.
Proof.
  intros c. unfold is_closer. intros H.
  apply orb_true_iff in H as [H|H]; [apply orb_true_iff in H as [H|H]|];
    apply N.eqb_eq in H; subst; reflexivity.
Qed.

Lemma quote_not_backslash : forall q, is_quote q = true -> q <> backslash.
Proof. intros q H ->. discriminate. Qed.

(** ** The mode and the flags *)

Lemma mode_normal : forall s,
  mode_of s = Normal <->
  in_comment s = false /\ in_multiline_comment s = false /\
  in_string s = false.
Proof.
  intros s. unfold mode_of.
  destruct (in_comment s), (in_multiline_comment s), (in_string s);
    split; intros H; try discriminate; try reflexivity;
    try (repeat split; reflexivity);
    destruct H as (H1 & H2 & H3); discriminate.
Qed.

Lemma mode_line_comment : forall s,
  mode_of s = InLineComment <-> in_comment s = true.
Proof.
  intros s. unfold mode_of.
  destruct (in_comment s), (in_multiline_comment s), (in_string s);
    split; intros H; try discriminate; reflexivity.
Qed.

Lemma mode_block_comment : forall s,
  mode_of s = InBlockComment <->
  in_comment s = false /\ in_multiline_comment s = true.
Proof.
  intros s. unfold mode_of.
  destruct (in_comment s), (in_multiline_comment s), (in_string s);
    split; intros H; try discriminate; try reflexivity;
    try (split; reflexivity); destruct H; discriminate.
Qed.

Lemma mode_string : forall s q,
  mode_of s = InString q <->
  in_comment s = false /\ in_multiline_comment s = false /\
  in_string s = true /\ string_char s = q.
Proof.
  intros s q. unfold mode_of.
  destruct (in_comment s), (in_multiline_comment s), (in_string s);
    split; intros H; try discriminate;
    try (destruct H as (H1 & H2 & H3 & H4); discriminate).
  - injection H as <-. repeat split; reflexivity.
  - destruct H as (_ & _ & _ & <-). reflexivity.
Qed.

Lemma set_in_comment_false_id : forall s,
  in_comment s = false -> set_in_comment false s = s.
Proof. intros [st a q b m]. simpl. now intros ->. Qed.

Lemma wf_init : wf_state init.
Proof.
  split; simpl; try discriminate. constructor.
Qed.

Lemma wf_set_in_comment_false : forall s,
  wf_state s -> wf_state (set_in_comment false s).
Proof.
  intros s [H1 H2 H3 H4]. split; simpl; auto. discriminate.
Qed.

(** ** One iteration *)

(** Every iteration moves [j] forward, by one or by two. *)
Lemma step_advance : forall i line j s j' s',
  step i line j s = Continue j' s' -> j' = j + 1 \/ j' = j + 2.
Proof.
  intros i line j s j' s' H. step_cases H; lia.
Qed.

Lemma wf_pop : forall s f st',
  wf_state s -> pop (stack s) = Some (f, st') ->
  is_opener (kind f) = true /\ wf_state (set_stack st' s).
Proof.
  intros s f st' [H1 H2 H3 H4] Hp. apply pop_some in Hp.
  rewrite Hp in H4. apply Forall_app in H4 as [Ha Hb].
  split; [now inversion Hb|]. split; simpl; auto.
Qed.

Lemma step_wf : forall i line j s j' s',
  wf_state s -> step i line j s = Continue j' s' -> wf_state s'.
Proof.
  intros i line j s j' s' W H.
  pose proof W as [H1 H2 H3 H4].
  step_cases H; auto;
    try (eapply wf_pop; eassumption);
    split; simpl; auto; try discriminate; try (intros; congruence);
    try (intros; split; congruence).
  - intros _. eexists; split; [reflexivity|assumption].
  - apply Forall_app. split; auto.
  - apply Forall_app. split; auto.
Qed.

(** The dict lookup never fails: the stack holds opening brackets only. *)
Lemma step_no_key_error : forall i line j s k,
  wf_state s -> step i line j s <> Return (RaisedKeyError k).
Proof.
  intros i line j s k W H. step_cases H;
    match goal with
    | P : pop (stack s) = Some _ |- _ =>
        destruct (wf_pop _ _ _ W P) as [Ho _]; simpl in Ho;
        apply closer_of_opener in Ho as (e & He & _); congruence
    end.
Qed.

(** The branches of the loop body, one per mode. *)
Lemma step_in_line_comment : forall i line j s,
  mode_of s = InLineComment ->
  step i line j s =
    Continue (j + 1)
      (if Nat.eqb j (length line - 1) then set_in_comment false s else s).
Proof.
  intros i line j s H. apply mode_line_comment in H.
  unfold step. rewrite H. now destruct (Nat.eqb j (length line - 1)).
Qed.

Lemma step_in_block_comment : forall i line j s,
  mode_of s = InBlockComment ->
  step i line j s =
    if N.eqb (nth j line 0%N) star && (j + 1 <? length line)
       && N.eqb (nth (j + 1) line 0%N) slash
    then Continue (j + 2) (set_in_multiline_comment false s)
    else Continue (j + 1) s.
Proof.
  intros i line j s H. apply mode_block_comment in H as [H1 H2].
  unfold step. rewrite H1, H2.
  replace (j + 1 + 1) with (j + 2) by lia. reflexivity.
Qed.

Lemma step_in_string : forall i line j s q,
  mode_of s = InString q ->
  step i line j s =
    if N.eqb (nth j line 0%N) backslash then Continue (j + 2) s
    else if eq_string_char (nth j line 0%N) q
    then Continue (j + 1) (set_in_string false s)
    else Continue (j + 1) s.
Proof.
  intros i line j s q H. apply mode_string in H as (H1 & H2 & H3 & H4).
  unfold step. rewrite H1, H2, H3, H4.
  replace (j + 1 + 1) with (j + 2) by lia. reflexivity.
Qed.

Lemma step_in_normal : forall i line j s,
  mode_of s = Normal ->
  step i line j s =
    let char := nth j line 0%N in
    if is_quote char then
      Continue (j + 1) (set_string_char char (set_in_string true s))
    else if N.eqb char slash && (j + 1 <? length line) then
      if N.eqb (nth (j + 1) line 0%N) slash
      then Continue (j + 1) (set_in_comment true s)
      else if N.eqb (nth (j + 1) line 0%N) star
      then Continue (j + 1) (set_in_multiline_comment true s)
      else check_brackets i j char s
    else check_brackets i j char s.
Proof.
  intros i line j s H. apply mode_normal in H as (H1 & H2 & H3).
  unfold step. rewrite H1, H2, H3. reflexivity.
Qed.

(** A bracket in Normal mode always reaches the bracket check. *)
Lemma step_bracket : forall i line j s,
  mode_of s = Normal ->
  is_opener (nth j line 0%N) || is_closer (nth j line 0%N) = true ->
  step i line j s = check_brackets i j (nth j line 0%N) s.
Proof.
  intros i line j s H B. rewrite step_in_normal by assumption. cbv zeta.
  assert (is_quote (nth j line 0%N) = false /\
          N.eqb (nth j line 0%N) slash = false) as [Q S].
  { apply orb_true_iff in B as [B|B].
    - split; [now apply opener_not_quote | now apply opener_not_slash].
    - split; [now apply closer_not_quote | now apply closer_not_slash]. }
  rewrite Q, S. reflexivity.
Qed.

(** Outside the bracket check the stack is never touched. *)
Lemma step_stack_other : forall i line j s j' s',
  (mode_of s <> Normal \/
   is_opener (nth j line 0%N) || is_closer (nth j line 0%N) = false) ->
  step i line j s = Continue j' s' -> stack s' = stack s.
Proof.
  intros i line j s j' s' C H.
  assert (M : mode_of s = Normal ->
              is_opener (nth j line 0%N) = false /\
              is_closer (nth j line 0%N) = false).
  { intros M. destruct C as [C|C]; [contradiction|].
    now apply orb_false_iff in C. }
  step_cases H; try reflexivity;
    (destruct M as [M1 M2];
     [apply mode_normal; repeat split; assumption | congruence]).
Qed.

(** ** The [while] loop ends *)

Lemma while_loop_enough : forall fuel i line j s,
  length line - j <= fuel -> exists r, while_loop fuel i line j s = Some r.
Proof.
  induction fuel as [|fuel IH]; intros i line j s Hf; simpl.
  - destruct (j <? length line) eqn:E; [|eauto].
    apply Nat.ltb_lt in E. lia.
  - destruct (j <? length line) eqn:E; [|eauto].
    apply Nat.ltb_lt in E.
    destruct (step i line j s) as [j' s'|o] eqn:St; [|eauto].
    apply IH. apply step_advance in St. lia.
Qed.

Lemma while_loop_more : forall fuel fuel' i line j s r,
  while_loop fuel i line j s = Some r -> fuel <= fuel' ->
  while_loop fuel' i line j s = Some r.
Proof.
  induction fuel as [|fuel IH]; intros fuel' i line j s r H Hf.
  - simpl in H. destruct fuel'; simpl;
      destruct (j <? length line); congruence.
  - destruct fuel' as [|fuel']; [lia|]. simpl in *.
    destruct (j <? length line); [|assumption].
    destruct (step i line j s) as [j' s'|o]; [|assumption].
    apply IH with (fuel' := fuel') in H; [assumption|lia].
Qed.

Lemma while_loop_rest : forall fuel i line j s,
  length line - j <= fuel ->
  while_loop fuel i line j s = rest_of_line i line j s.
Proof.
  intros fuel i line j s Hf. unfold rest_of_line.
  destruct (while_loop_enough (length line - j) i line j s (le_n _))
    as [r Hr].
  rewrite Hr. eapply while_loop_more; eassumption.
Qed.

Lemma rest_of_line_end : forall i line j s,
  length line <= j -> rest_of_line i line j s = Some (inl s).
Proof.
  intros i line j s H. unfold rest_of_line.
  replace (length line - j) with 0 by lia. simpl.
  destruct (j <? length line) eqn:E; [|reflexivity].
  apply Nat.ltb_lt in E. lia.
Qed.

Lemma rest_of_line_step : forall i line j s,
  j < length line ->
  rest_of_line i line j s =
    match step i line j s with
    | Continue j' s' => rest_of_line i line j' s'
    | Return o => Some (inr o)
    end.
Proof.
  intros i line j s H. unfold rest_of_line at 1.
  destruct (length line - j) as [|fuel] eqn:E; [lia|]. simpl.
  apply Nat.ltb_lt in H. rewrite H. apply Nat.ltb_lt in H.
  destruct (step i line j s) as [j' s'|o] eqn:St; [|reflexivity].
  apply while_loop_rest. apply step_advance in St. lia.
Qed.

(** The [while] loop always ends within [len(line)] iterations. *)
Lemma while_loop_total : forall i line s,
  exists r, while_loop (length line) i line 0 s = Some r.
Proof. intros. apply while_loop_enough. lia. Qed.

Lemma for_loop_total : forall lines i s,
  exists r, for_loop i lines s = Some r.
Proof.
  induction lines as [|line rest IH]; intros i s; simpl; [eauto|].
  destruct (while_loop_total i line s) as [[s'|o] Hr]; rewrite Hr; eauto.
Qed.

(** [check_balance] always ends, for every text. *)
Lemma check_balance_total : forall content,
  exists o, check_balance content = Some o.
Proof.
  intros content. unfold check_balance, scan_lines.
  destruct (for_loop_total (splitlines content) 0 init) as [[s|o] Hr];
    rewrite Hr; simpl; eauto.
Qed.

(** ** The machine and the loops agree *)

Lemma skipn_nth_error : forall (A : Type) (l : list A) n x,
  nth_error l n = Some x -> skipn n l = x :: skipn (S n) l.
Proof.
  induction l as [|a l IH]; intros [|n] x H; simpl in *; try discriminate.
  - now injection H as ->.
  - now apply IH.
Qed.

Lemma skipn_nth_error_none : forall (A : Type) (l : list A) n,
  nth_error l n = None -> skipn n l = [].
Proof.
  intros A l n H. apply skipn_all2. now apply nth_error_None.
Qed.

Lemma for_loop_skipn : forall lines i s,
  for_loop i (skipn i lines) s =
    match nth_error lines i with
    | None => Some (inl s)
    | Some line =>
        match rest_of_line i line 0 s with
        | Some (inl s') =>
            for_loop (S i) (skipn (S i) lines) (set_in_comment false s')
        | r => r
        end
    end.
Proof.
  intros lines i s. destruct (nth_error lines i) as [line|] eqn:E.
  - rewrite (skipn_nth_error _ _ _ _ E). simpl.
    rewrite while_loop_rest by lia. reflexivity.
  - rewrite (skipn_nth_error_none _ _ _ E). reflexivity.
Qed.

Lemma resume_start : forall lines, resume lines start = scan_lines lines.
Proof.
  intros lines. unfold resume, scan_lines. f_equal.
  change lines with (skipn 0 lines) at 3.
  rewrite for_loop_skipn. reflexivity.
Qed.

Lemma resume_step : forall lines c,
  match machine_step lines c with
  | Running c' => resume lines c' = resume lines c
  | Halted o => resume lines c = Some o
  end.
Proof.
  intros lines [i j s]. unfold machine_step, resume. cbn [ci cj cs].
  destruct (nth_error lines i) as [line|] eqn:E; [|reflexivity].
  destruct (j <? length line) eqn:L.
  - apply Nat.ltb_lt in L. rewrite (rest_of_line_step i line j s L).
    destruct (step i line j s) as [j' s'|o]; cbn [ci cj cs].
    + rewrite E. reflexivity.
    + reflexivity.
  - apply Nat.ltb_ge in L. rewrite (rest_of_line_end i line j s L).
    cbn [ci cj cs]. f_equal. symmetry. apply for_loop_skipn.
Qed.

(** Along a run, what remains to be computed is always the result of
    the whole scan. *)
Lemma run_resume : forall lines n,
  match run n lines with
  | Running c => resume lines c = scan_lines lines
  | Halted o => scan_lines lines = Some o
  end.
Proof.
  intros lines. induction n as [|n IH]; simpl.
  - apply resume_start.
  - destruct (run n lines) as [c|o]; [|assumption].
    pose proof (resume_step lines c) as R.
    destruct (machine_step lines c); congruence.
Qed.

Lemma run_halted : forall lines n o,
  run n lines = Halted o -> scan_lines lines = Some o.
Proof.
  intros lines n o H. pose proof (run_resume lines n) as R.
  now rewrite H in R.
Qed.

Lemma run_halted_later : forall lines n m o,
  run n lines = Halted o -> n <= m -> run m lines = Halted o.
Proof.
  intros lines n m o H L. induction L as [|m L IH]; [assumption|].
  simpl. now rewrite IH.
Qed.

(** ** Invariants of the run *)

Lemma run_succ : forall lines n c,
  run n lines = Running c -> run (S n) lines = machine_step lines c.
Proof. intros lines n c H. simpl. now rewrite H. Qed.

Lemma run_running_earlier : forall lines n m c,
  run m lines = Running c -> n <= m -> exists c', run n lines = Running c'.
Proof.
  intros lines n m c H L. destruct (run n lines) as [c'|o] eqn:E; [eauto|].
  rewrite (run_halted_later lines n m o E L) in H. discriminate.
Qed.

Lemma machine_step_wf : forall lines c c',
  wf_state (cs c) -> machine_step lines c = Running c' -> wf_state (cs c').
Proof.
  intros lines [i j s] c' W. unfold machine_step. cbn [ci cj cs] in *.
  destruct (nth_error lines i) as [line|]; [|discriminate].
  destruct (j <? length line).
  - destruct (step i line j s) as [j' s'|o] eqn:St; [|discriminate].
    intros H. injection H as <-. cbn [cs]. eapply step_wf; eassumption.
  - intros H. injection H as <-. cbn [cs].
    now apply wf_set_in_comment_false.
Qed.

Lemma run_wf : forall lines n c,
  run n lines = Running c -> wf_state (cs c).
Proof.
  intros lines. induction n as [|n IH]; intros c H.
  - injection H as <-. apply wf_init.
  - simpl in H. destruct (run n lines) as [c0|o]; [|discriminate].
    eapply machine_step_wf; [apply IH; reflexivity|eassumption].
Qed.

(** A running configuration is inside the text or just behind a line. *)
Lemma machine_step_pos : forall lines c c',
  machine_step lines c = Running c' -> pos_lt c c'.
Proof.
  intros lines [i j s] c'. unfold machine_step, pos_lt. cbn [ci cj cs].
  destruct (nth_error lines i) as [line|]; [|discriminate].
  destruct (j <? length line).
  - destruct (step i line j s) as [j' s'|o] eqn:St; [|discriminate].
    intros H. injection H as <-. cbn [ci cj].
    apply step_advance in St. lia.
  - intros H. injection H as <-. cbn [ci cj]. lia.
Qed.

Lemma run_pos_lt : forall lines n m c c',
  run n lines = Running c -> run m lines = Running c' -> n < m ->
  pos_lt c c'.
Proof.
  intros lines n m. revert n.
  induction m as [|m IH]; intros n c c' Hn Hm L; [lia|].
  simpl in Hm. destruct (run m lines) as [c0|o] eqn:E; [|discriminate].
  apply machine_step_pos in Hm.
  assert (n = m \/ n < m) as [->|L'] by lia.
  - rewrite E in Hn. injection Hn as <-. assumption.
  - specialize (IH n c c0 Hn eq_refl L'). unfold pos_lt in *. lia.
Qed.

(** No line starts inside a line comment. *)
Lemma run_line_start : forall lines n c,
  run n lines = Running c -> cj c = 0 -> in_comment (cs c) = false.
Proof.
  intros lines [|n] c H Z.
  - injection H as <-. reflexivity.
  - simpl in H. destruct (run n lines) as [[i j s]|o]; [|discriminate].
    unfold machine_step in H. cbn [ci cj cs] in H.
    destruct (nth_error lines i) as [line|]; [|discriminate].
    destruct (j <? length line).
    + destruct (step i line j s) as [j' s'|o] eqn:St; [|discriminate].
      injection H as <-. cbn [cj] in Z. apply step_advance in St. lia.
    + injection H as <-. reflexivity.
Qed.

(** The machine's moves at a character, by what the iteration does. *)
Lemma machine_step_continue : forall lines c line j' s',
  nth_error lines (ci c) = Some line -> cj c < length line ->
  step (ci c) line (cj c) (cs c) = Continue j' s' ->
  machine_step lines c = Running (Config (ci c) j' s').
Proof.
  intros lines c line j' s' E L St. unfold machine_step. rewrite E.
  apply Nat.ltb_lt in L. now rewrite L, St.
Qed.

Lemma machine_step_return : forall lines c line o,
  nth_error lines (ci c) = Some line -> cj c < length line ->
  step (ci c) line (cj c) (cs c) = Return o ->
  machine_step lines c = Halted o.
Proof.
  intros lines c line o E L St. unfold machine_step. rewrite E.
  apply Nat.ltb_lt in L. now rewrite L, St.
Qed.

Lemma machine_step_newline : forall lines c line,
  nth_error lines (ci c) = Some line -> length line <= cj c ->
  machine_step lines c =
    Running (Config (S (ci c)) 0 (set_in_comment false (cs c))).
Proof.
  intros lines c line E L. unfold machine_step. rewrite E.
  apply Nat.ltb_ge in L. now rewrite L.
Qed.

Lemma current_some : forall lines c line,
  nth_error lines (ci c) = Some line -> cj c < length line ->
  current lines c = Some (nth (cj c) line 0%N).
Proof.
  intros lines c line E L. unfold current. rewrite E.
  now apply nth_error_nth'.
Qed.

Lemma current_none : forall lines c line,
  nth_error lines (ci c) = Some line -> length line <= cj c ->
  current lines c = None.
Proof.
  intros lines c line E L. unfold current. rewrite E.
  now apply nth_error_None.
Qed.

(** ** Nesting *)

Lemma open_in_push : forall h st o,
  open_in h st -> is_opener (kind o) = true ->
  open_in (h ++ [o]) (st ++ [o]).
Proof.
  intros h st o H O. apply open_more; [assumption|assumption|constructor].
Qed.

Lemma open_in_snoc_inv : forall h st o,
  open_in h (st ++ [o]) ->
  exists h' b, h = h' ++ o :: b /\ open_in h' st /\ balanced b /\
               is_opener (kind o) = true.
Proof.
  intros h st o H. inversion H as [b B E1 E2|h' st' o' b H' O B E1 E2].
  - destruct st; discriminate.
  - apply app_inj_tail in E2 as [-> ->]. exists h', b. auto.
Qed.

Lemma open_in_close : forall h st o c,
  open_in h (st ++ [o]) -> closer_of (kind o) = Some (kind c) ->
  open_in (h ++ [c]) st.
Proof.
  intros h st o c H M.
  apply open_in_snoc_inv in H as (h' & b & -> & H' & B & _).
  rewrite <- app_assoc. cbn [app].
  apply closer_of_matching in M.
  inversion H' as [b0 B0 E1 E2|h0 st0 o0 b0 H0 O0 B0 E1 E2]; subst.
  - apply open_none. now apply balanced_pair.
  - rewrite <- app_assoc. cbn [app].
    apply open_more; [assumption|assumption|].
    now apply balanced_pair.
Qed.

Lemma replay_app : forall h1 h2 st st',
  replay st h1 = Some st' -> replay st (h1 ++ h2) = replay st' h2.
Proof.
  induction h1 as [|e h1 IH]; intros h2 st st' H; simpl in *.
  - now injection H as ->.
  - destruct (is_opener (kind e)); [now apply IH|].
    destruct (pop st) as [[o st0]|]; [|discriminate].
    destruct (closer_of (kind o)) as [x|]; [|discriminate].
    destruct (N.eqb x (kind e)); [now apply IH|discriminate].
Qed.

Lemma closer_of_closer : forall c e,
  closer_of c = Some e -> is_opener e = false.
Proof.
  intros c e H. apply closer_not_opener.
  pose proof (closer_of_some c e H) as O.
  apply closer_of_opener in O as (e' & E & C). congruence.
Qed.

Lemma replay_balanced : forall b, balanced b ->
  forall st, replay st b = Some st.
Proof.
  induction 1 as [|a b o c Ha IHa Hb IHb M]; intros st; [reflexivity|].
  apply closer_of_matching in M.
  rewrite (replay_app a _ st st (IHa st)). simpl.
  rewrite (closer_of_some _ _ M).
  rewrite (replay_app b _ (st ++ [o]) (st ++ [o]) (IHb _)). simpl.
  rewrite (closer_of_closer _ _ M), pop_snoc, M, N.eqb_refl. reflexivity.
Qed.

Lemma replay_open_in : forall h st, open_in h st -> replay [] h = Some st.
Proof.
  induction 1 as [b B|h st o b H IH O B].
  - now apply replay_balanced.
  - rewrite (replay_app h _ [] st IH). simpl. rewrite O.
    now apply replay_balanced.
Qed.

(** A history has one list of unmatched opening brackets at most. *)
Lemma open_in_unique : forall h st1 st2,
  open_in h st1 -> open_in h st2 -> st1 = st2.
Proof.
  intros h st1 st2 H1 H2.
  apply replay_open_in in H1. apply replay_open_in in H2. congruence.
Qed.

Lemma event_at_normal : forall lines c line,
  nth_error lines (ci c) = Some line -> cj c < length line ->
  mode_of (cs c) = Normal ->
  is_opener (nth (cj c) line 0%N) || is_closer (nth (cj c) line 0%N) = true ->
  event_at lines c = [Frame (nth (cj c) line 0%N) (ci c + 1) (cj c + 1)].
Proof.
  intros lines c line E L M B. unfold event_at.
  rewrite (current_some lines c line E L), M, B. reflexivity.
Qed.

Lemma event_at_other : forall lines c line,
  nth_error lines (ci c) = Some line -> cj c < length line ->
  (mode_of (cs c) <> Normal \/
   is_opener (nth (cj c) line 0%N) || is_closer (nth (cj c) line 0%N)
   = false) ->
  event_at lines c = [].
Proof.
  intros lines c line E L C. unfold event_at.
  rewrite (current_some lines c line E L).
  destruct (mode_of (cs c)); try reflexivity.
  destruct C as [C|C]; [contradiction|]. now rewrite C.
Qed.

Lemma machine_step_open_in : forall lines c c' h,
  open_in h (stack (cs c)) -> machine_step lines c = Running c' ->
  open_in (h ++ event_at lines c) (stack (cs c')).
Proof.
  intros lines c c' h H St.
  destruct (nth_error lines (ci c)) as [line|] eqn:E;
    [|unfold machine_step in St; rewrite E in St; discriminate].
  destruct (Nat.lt_ge_cases (cj c) (length line)) as [L|L].
  - destruct (step (ci c) line (cj c) (cs c)) as [j' s'|o] eqn:S1;
      [rewrite (machine_step_continue lines c line j' s' E L S1) in St
      |rewrite (machine_step_return lines c line o E L S1) in St;
       discriminate].
    injection St as <-. cbn [cs].
    destruct (mode_of (cs c)) eqn:M;
      try (assert (N' : mode_of (cs c) <> Normal) by congruence;
           rewrite (event_at_other lines c line E L (or_introl N')),
             (step_stack_other _ _ _ _ _ _ (or_introl N') S1), app_nil_r;
           assumption).
    destruct (is_opener (nth (cj c) line 0%N)
              || is_closer (nth (cj c) line 0%N)) eqn:B.
    + rewrite (event_at_normal lines c line E L M B).
      rewrite (step_bracket _ _ _ _ M B) in S1.
      unfold check_brackets in S1.
      destruct (is_opener (nth (cj c) line 0%N)) eqn:O.
      * injection S1 as <- <-. cbn [stack set_stack].
        now apply open_in_push.
      * simpl in B. rewrite B in S1.
        destruct (pop (stack (cs c))) as [[[lc ll lcol] st']|] eqn:P;
          [|discriminate].
        destruct (closer_of lc) as [e|] eqn:Ce; [|discriminate].
        destruct (N.eqb (nth (cj c) line 0%N) e) eqn:Eq; [|discriminate].
        injection S1 as <- <-. cbn [stack set_stack].
        apply pop_some in P. rewrite P in H.
        apply N.eqb_eq in Eq.
        eapply open_in_close; [eassumption|]. cbn [kind]. congruence.
    + rewrite (event_at_other lines c line E L) by (now right).
      rewrite (step_stack_other _ _ _ _ _ _ (or_intror B) S1), app_nil_r.
      assumption.
  - rewrite (machine_step_newline lines c line E L) in St.
    injection St as <-. cbn [cs set_in_comment stack].
    unfold event_at. rewrite (current_none lines c line E L), app_nil_r.
    assumption.
Qed.

Lemma run_open_in : forall lines n c,
  run n lines = Running c -> open_in (history n lines) (stack (cs c)).
Proof.
  intros lines. induction n as [|n IH]; intros c H.
  - injection H as <-. simpl. apply open_none. constructor.
  - simpl in *. destruct (run n lines) as [c0|o]; [|discriminate].
    eapply machine_step_open_in; [apply IH; reflexivity|assumption].
Qed.

(** ** The run stops *)

Lemma extent_firstn_succ : forall lines i line,
  nth_error lines i = Some line ->
  extent (firstn (S i) lines) = extent (firstn i lines) + (length line + 2).
Proof.
  induction lines as [|l lines IH]; intros [|i] line H;
    try discriminate.
  - injection H as ->. simpl. lia.
  - simpl in H. apply IH in H. change (firstn (S (S i)) (l :: lines))
      with (l :: firstn (S i) lines).
    change (firstn (S i) (l :: lines)) with (l :: firstn i lines).
    cbn [extent]. lia.
Qed.

Lemma extent_firstn_le : forall lines i,
  extent (firstn i lines) <= extent lines.
Proof.
  induction lines as [|l lines IH]; intros [|i]; simpl; try lia.
  specialize (IH i). lia.
Qed.

Lemma run_rank : forall lines n c,
  run n lines = Running c ->
  n <= rank lines c /\
  match nth_error lines (ci c) with
  | Some line => cj c <= length line + 1
  | None => cj c = 0
  end.
Proof.
  intros lines. induction n as [|n IH]; intros c H.
  - injection H as <-. split; [lia|]. cbn [ci cj start].
    now destruct (nth_error lines 0); [lia|].
  - simpl in H. destruct (run n lines) as [[i j s]|o]; [|discriminate].
    destruct (IH _ eq_refl) as [Rk B]. unfold rank in *.
    unfold machine_step in H. cbn [ci cj cs] in *.
    destruct (nth_error lines i) as [line|] eqn:E; [|discriminate].
    destruct (j <? length line) eqn:L.
    + apply Nat.ltb_lt in L.
      destruct (step i line j s) as [j' s'|o] eqn:St; [|discriminate].
      injection H as <-. cbn [ci cj]. rewrite E.
      apply step_advance in St. lia.
    + injection H as <-. cbn [ci cj].
      rewrite (extent_firstn_succ _ _ _ E).
      split; [lia|]. now destruct (nth_error lines (S i)); [lia|].
Qed.

Lemma rank_bound : forall lines n c,
  run n lines = Running c -> rank lines c <= extent lines.
Proof.
  intros lines n c H. destruct (run_rank _ _ _ H) as [_ B].
  unfold rank. destruct (nth_error lines (ci c)) as [line|] eqn:E.
  - pose proof (extent_firstn_succ _ _ _ E).
    pose proof (extent_firstn_le lines (S (ci c))). lia.
  - pose proof (extent_firstn_le lines (ci c)). lia.
Qed.

(** The scan stops, after [extent lines + 1] moves at the latest, with
    the outcome of the loops. *)
Lemma run_halts : forall lines,
  exists o, run (S (extent lines)) lines = Halted o /\
            scan_lines lines = Some o.
Proof.
  intros lines. destruct (run (S (extent lines)) lines) as [c|o] eqn:R.
  - pose proof (run_rank _ _ _ R) as [Rk _].
    pose proof (rank_bound _ _ _ R). lia.
  - exists o. split; [reflexivity|]. eapply run_halted; eassumption.
Qed.

(** * The claims *)

(** The start of a block comment moves [j] by one only: the [continue]
    skips the [j += 1] at the end of the body. *)
Lemma step_block_comment_start : forall i line j s,
  mode_of s = Normal -> nth j line 0%N = slash -> j + 1 < length line ->
  nth (j + 1) line 0%N = star ->
  step i line j s = Continue (j + 1) (set_in_multiline_comment true s).
Proof.
  intros i line j s M C L X. rewrite step_in_normal by assumption.
  cbv zeta. rewrite C, X. apply Nat.ltb_lt in L. rewrite L. reflexivity.
Qed.

(** C1.  The code does not consume both characters when a block comment
    starts.  On the one-line text slash, star, slash, opening brace: the
    start of the block comment consumes the slash only, the star is
    examined again inside the comment and closes it together with the
    second slash, so after two iterations the scan is back in Normal
    mode at column index 3, the brace is pushed and the call reports it
    as unclosed. *)
Theorem C1_block_comment_start_consumes_one :
  run 1 [lit "/*/{"] =
    Running (Config 0 1 (set_in_multiline_comment true init)) /\
  run 2 [lit "/*/{"] = Running (Config 0 3 init) /\
  mode_of init = Normal /\
  check_balance (lit "/*/{") =
    Some (Unclosed (Frame lbrace 1 4) 1 [Frame lbrace 1 4]).
Proof. repeat split; reflexivity. Qed.

(** C2.  When the [for] loop ends without a [return]: an empty stack
    gives the success report; a stack that is not empty gives the
    unclosed report, with [stack[0]] (the bottom, oldest entry) as the
    place, the number of entries as the total, and as the last few the
    entries at the top of the stack, five of them or all when there are
    fewer.  On three opening braces: the first brace, total 3, and all
    three entries. *)
Theorem C2_end_of_input : forall lines s,
  for_loop 0 lines init = Some (inl s) ->
  (stack s = [] -> scan_lines lines = Some NoUnbalanced) /\
  (stack s <> [] ->
   exists first_unclosed older last_few,
     scan_lines lines =
       Some (Unclosed first_unclosed (length (stack s)) last_few) /\
     nth_error (stack s) 0 = Some first_unclosed /\
     stack s = older ++ last_few /\
     length last_few = Nat.min 5 (length (stack s)) /\
     last_few = rev (firstn 5 (rev (stack s)))) /\
  check_balance (lit "{{{") =
    Some (Unclosed (Frame lbrace 1 1) 3
            [Frame lbrace 1 1; Frame lbrace 1 2; Frame lbrace 1 3]).
Proof.
  intros lines s H. unfold scan_lines. rewrite H. cbn [finish].
  split; [|split; [|reflexivity]].
  - intros ->. reflexivity.
  - intros N. destruct (stack s) as [|f st] eqn:E; [contradiction|].
    exists f, (firstn (length (f :: st) - 5) (f :: st)),
      (last_slice 5 (f :: st)).
    split; [reflexivity|]. split; [reflexivity|].
    split; [apply last_slice_split|].
    split; [apply last_slice_length|apply last_slice_rev].
Qed.

Lemma C2_end_of_input_witness :
  scan_lines [lit "{{{"] =
    Some (Unclosed (Frame lbrace 1 1) 3
            [Frame lbrace 1 1; Frame lbrace 1 2; Frame lbrace 1 3]).
Proof.
  destruct (C2_end_of_input [lit "{{{"]
              (set_stack [Frame lbrace 1 1; Frame lbrace 1 2;
                          Frame lbrace 1 3] init) eq_refl)
    as (_ & H & _).
  destruct H as (f & older & few & R & F & S & L & W);
    [discriminate|].
  rewrite R. injection F as <-. rewrite W. reflexivity.
Defined.

(** The bracket check on a closing bracket. *)
Lemma check_brackets_closer_empty : forall i j char s,
  is_closer char = true -> stack s = [] ->
  check_brackets i j char s = Return (Unexpected char (i + 1) (j + 1)).
Proof.
  intros i j char s C E. unfold check_brackets.
  rewrite (closer_not_opener _ C), C, E. reflexivity.
Qed.

Lemma check_brackets_closer_top : forall i j char s st o expected,
  is_closer char = true -> stack s = st ++ [o] ->
  closer_of (kind o) = Some expected ->
  check_brackets i j char s =
    if negb (N.eqb char expected)
    then Return (Mismatched char (i + 1) (j + 1) expected
                            (kind o) (fline o) (fcol o))
    else Continue (j + 1) (set_stack st s).
Proof.
  intros i j char s st [lc ll lcol] expected C E X. unfold check_brackets.
  rewrite (closer_not_opener _ C), C, E, pop_snoc. cbn [kind] in X.
  rewrite X. reflexivity.
Qed.

Lemma current_inv : forall lines c char,
  current lines c = Some char ->
  exists line, nth_error lines (ci c) = Some line /\
               cj c < length line /\ nth (cj c) line 0%N = char.
Proof.
  intros lines c char H. unfold current in H.
  destruct (nth_error lines (ci c)) as [line|]; [|discriminate].
  exists line. split; [reflexivity|].
  split; [apply nth_error_Some; congruence|now apply nth_error_nth].
Qed.

(** C3.  At a closing bracket in Normal mode with a stack that is not
    empty, the top entry is popped and its opening bracket has an
    expected closing bracket, the one the specification pairs it with
    (closing brace for an opening brace, closing parenthesis for an
    opening parenthesis, closing square bracket for an opening square
    bracket); when the character is that one the scan
    goes on with the rest of the stack, and when it differs the scan
    stops at once and the call reports the mismatch with the character,
    its 1-based line and column, the expected bracket, and the popped
    opening bracket with its line and column.  On an opening parenthesis
    followed by a closing square bracket this is the mismatch at line 1,
    column 2, expecting the closing parenthesis for the one at line 1,
    column 1. *)
Theorem C3_mismatched_closer : forall lines n c char st o,
  run n lines = Running c ->
  current lines c = Some char ->
  mode_of (cs c) = Normal ->
  is_closer char = true ->
  stack (cs c) = st ++ [o] ->
  (exists expected,
     matching (kind o) expected /\
     closer_of (kind o) = Some expected /\
     (char = expected ->
      run (S n) lines =
        Running (Config (ci c) (cj c + 1) (set_stack st (cs c)))) /\
     (char <> expected ->
      run (S n) lines =
        Halted (Mismatched char (ci c + 1) (cj c + 1) expected
                           (kind o) (fline o) (fcol o)) /\
      scan_lines lines =
        Some (Mismatched char (ci c + 1) (cj c + 1) expected
                         (kind o) (fline o) (fcol o)))) /\
  check_balance (lit "(]") =
    Some (Mismatched rbracket 1 2 rparen lparen 1 1).
Proof.
  intros lines n c char st o R Cur M C E. split; [|reflexivity].
  destruct (current_inv _ _ _ Cur) as (line & El & L & Ch).
  pose proof (run_wf _ _ _ R) as W.
  assert (O : is_opener (kind o) = true).
  { destruct W as [_ _ _ F]. rewrite E in F.
    apply Forall_app in F as [_ F]. now inversion F. }
  destruct (closer_of_opener _ O) as (expected & X & _).
  exists expected. split; [now apply closer_of_matching|].
  split; [assumption|].
  assert (S1 : step (ci c) line (cj c) (cs c) =
               if negb (N.eqb char expected)
               then Return (Mismatched char (ci c + 1) (cj c + 1) expected
                                       (kind o) (fline o) (fcol o))
               else Continue (cj c + 1) (set_stack st (cs c))).
  { rewrite step_bracket; [|assumption|rewrite Ch, C; apply orb_true_r].
    rewrite Ch. now apply check_brackets_closer_top. }
  split.
  - intros ->. rewrite N.eqb_refl in S1. cbn [negb] in S1.
    rewrite (run_succ _ _ _ R).
    now apply machine_step_continue with (line := line).
  - intros D. apply N.eqb_neq in D. rewrite D in S1. cbn [negb] in S1.
    assert (H : run (S n) lines =
                Halted (Mismatched char (ci c + 1) (cj c + 1) expected
                                   (kind o) (fline o) (fcol o))).
    { rewrite (run_succ _ _ _ R).
      now apply machine_step_return with (line := line). }
    split; [assumption|]. eapply run_halted; eassumption.
Qed.

Lemma C3_mismatched_closer_witness :
  run 2 [lit "(]"] = Halted (Mismatched rbracket 1 2 rparen lparen 1 1).
Proof.
  destruct (C3_mismatched_closer [lit "(]"] 1
              (Config 0 1 (set_stack [Frame lparen 1 1] init))
              rbracket [] (Frame lparen 1 1)
              eq_refl eq_refl eq_refl eq_refl eq_refl)
    as [(expected & _ & X & _ & H) _].
  injection X as <-. apply H. discriminate.
Defined.

(** C4.  At a closing bracket in Normal mode with an empty stack the
    scan stops at once and the call reports the unexpected character
    with its 1-based line and column.  On a lone closing parenthesis
    this is line 1, column 1. *)
Theorem C4_unexpected_closer : forall lines n c char,
  run n lines = Running c ->
  current lines c = Some char ->
  mode_of (cs c) = Normal ->
  is_closer char = true ->
  stack (cs c) = [] ->
  (run (S n) lines = Halted (Unexpected char (ci c + 1) (cj c + 1)) /\
   scan_lines lines = Some (Unexpected char (ci c + 1) (cj c + 1))) /\
  check_balance (lit ")") = Some (Unexpected rparen 1 1).
Proof.
  intros lines n c char R Cur M C E. split; [|reflexivity].
  destruct (current_inv _ _ _ Cur) as (line & El & L & Ch).
  assert (H : run (S n) lines =
              Halted (Unexpected char (ci c + 1) (cj c + 1))).
  { rewrite (run_succ _ _ _ R).
    apply machine_step_return with (line := line); try assumption.
    rewrite step_bracket; [|assumption|rewrite Ch, C; apply orb_true_r].
    rewrite Ch. now apply check_brackets_closer_empty. }
  split; [assumption|]. eapply run_halted; eassumption.
Qed.

Lemma C4_unexpected_closer_witness :
  scan_lines [lit "{}" ; lit " )"] = Some (Unexpected rparen 2 2).
Proof.
  apply (C4_unexpected_closer [lit "{}" ; lit " )"] 4
           (Config 1 1 init) rparen
           eq_refl eq_refl eq_refl eq_refl eq_refl).
Defined.

(** A character that an iteration jumps over is never examined. *)
Lemma run_skips : forall lines n c j' s',
  run n lines = Running c ->
  run (S n) lines = Running (Config (ci c) j' s') ->
  forall m c', run m lines = Running c' -> ci c' = ci c ->
  cj c' <= cj c \/ j' <= cj c'.
Proof.
  intros lines n c j' s' R R' m c' Rm Ei.
  destruct (Nat.lt_total m n) as [L|[->|L]].
  - pose proof (run_pos_lt _ _ _ _ _ Rm R L) as P. unfold pos_lt in P. lia.
  - rewrite R in Rm. injection Rm as <-. lia.
  - destruct (Nat.eq_dec m (S n)) as [->|D].
    + rewrite R' in Rm. injection Rm as <-. cbn [cj]. lia.
    + assert (L' : S n < m) by lia.
      pose proof (run_pos_lt _ _ _ _ _ R' Rm L') as P.
      unfold pos_lt in P. cbn [ci cj] in P. lia.
Qed.

(** The moves of the scan inside a string. *)
Lemma run_in_string : forall lines n c char q,
  run n lines = Running c ->
  current lines c = Some char ->
  mode_of (cs c) = InString q ->
  (exists q', q = Some q' /\ is_quote q' = true /\ q' <> backslash) /\
  (char = backslash ->
   run (S n) lines = Running (Config (ci c) (cj c + 2) (cs c)) /\
   forall m c', run m lines = Running c' ->
                ~ (ci c' = ci c /\ cj c' = cj c + 1)) /\
  (Some char = q ->
   run (S n) lines =
     Running (Config (ci c) (cj c + 1) (set_in_string false (cs c)))) /\
  (char <> backslash -> Some char <> q ->
   run (S n) lines = Running (Config (ci c) (cj c + 1) (cs c))) /\
  (exists c', run (S n) lines = Running c' /\
              stack (cs c') = stack (cs c) /\
              (mode_of (cs c') = Normal <-> Some char = q) /\
              (mode_of (cs c') = Normal \/ mode_of (cs c') = InString q)).
Proof.
  intros lines n c char q R Cur M.
  destruct (current_inv _ _ _ Cur) as (line & El & L & Ch).
  pose proof (run_wf _ _ _ R) as W.
  pose proof M as M'. apply mode_string in M' as (F1 & F2 & F3 & F4).
  destruct (wf_string _ W F3) as (q' & Q1 & Q2).
  assert (Q : q = Some q') by congruence.
  pose proof (quote_not_backslash _ Q2) as Q3.
  pose proof (step_in_string (ci c) line (cj c) (cs c) q M) as S1.
  rewrite Ch in S1.
  assert (Mn : mode_of (set_in_string false (cs c)) = Normal).
  { apply mode_normal. cbn. auto. }
  assert (B : char = backslash ->
              run (S n) lines = Running (Config (ci c) (cj c + 2) (cs c))).
  { intros ->. rewrite N.eqb_refl in S1. rewrite (run_succ _ _ _ R).
    now apply machine_step_continue with (line := line). }
  assert (T : Some char = q ->
              run (S n) lines =
                Running (Config (ci c) (cj c + 1)
                                (set_in_string false (cs c)))).
  { intros E. assert (char = q') as -> by congruence.
    apply N.eqb_neq in Q3. rewrite Q3, Q in S1. cbn in S1.
    rewrite N.eqb_refl in S1. rewrite (run_succ _ _ _ R).
    now apply machine_step_continue with (line := line). }
  assert (O : char <> backslash -> Some char <> q ->
              run (S n) lines = Running (Config (ci c) (cj c + 1) (cs c))).
  { intros D1 D2. apply N.eqb_neq in D1. rewrite D1, Q in S1. cbn in S1.
    assert (D3 : N.eqb char q' = false) by (apply N.eqb_neq; congruence).
    rewrite D3 in S1. rewrite (run_succ _ _ _ R).
    now apply machine_step_continue with (line := line). }
  split; [eauto|]. split; [|split; [assumption|split; [assumption|]]].
  - intros E. split; [auto|]. intros m c' Rm [Ei Ej].
    pose proof (run_skips _ _ _ _ _ R (B E) m c' Rm Ei). lia.
  - destruct (N.eq_dec char backslash) as [E|D1].
    + eexists. split; [apply (B E)|]. cbn [cs]. split; [reflexivity|].
      split; [|right; assumption].
      split; [congruence|]. intros E'. congruence.
    + destruct (N.eq_dec char q') as [E|D2].
      * eexists. split; [apply T; congruence|]. cbn [cs].
        split; [reflexivity|]. split; [|left; assumption].
        split; [congruence|auto].
      * eexists. split; [apply O; congruence|]. cbn [cs].
        split; [reflexivity|]. split; [|right; assumption].
        split; congruence.
Qed.

(** C5.  In a string that [q] ends ([q] is then one of the three quotes,
    never the backslash): a backslash moves the scan two characters on
    with all variables unchanged, and no iteration ever examines the
    character after it; the character [q] moves the scan one character
    on and ends the string; any other character moves it one character
    on inside the string.  In all three cases the stack is untouched,
    and the next mode is Normal exactly when the character is [q].  On a
    double-quoted string that holds an opening brace and an opening
    parenthesis the call reports success. *)
Theorem C5_string_mode : forall lines n c char q,
  run n lines = Running c ->
  current lines c = Some char ->
  mode_of (cs c) = InString q ->
  (exists q', q = Some q' /\ is_quote q' = true /\ q' <> backslash) /\
  (char = backslash ->
   run (S n) lines = Running (Config (ci c) (cj c + 2) (cs c)) /\
   forall m c', run m lines = Running c' ->
                ~ (ci c' = ci c /\ cj c' = cj c + 1)) /\
  (Some char = q ->
   run (S n) lines =
     Running (Config (ci c) (cj c + 1) (set_in_string false (cs c)))) /\
  (char <> backslash -> Some char <> q ->
   run (S n) lines = Running (Config (ci c) (cj c + 1) (cs c))) /\
  (exists c', run (S n) lines = Running c' /\
              stack (cs c') = stack (cs c) /\
              (mode_of (cs c') = Normal <-> Some char = q) /\
              (mode_of (cs c') = Normal \/ mode_of (cs c') = InString q)) /\
  check_balance ([dquote] ++ lit "{(" ++ [dquote]) = Some NoUnbalanced.
Proof.
  intros lines n c char q R Cur M.
  destruct (run_in_string lines n c char q R Cur M) as (A & B & C & D & E).
  repeat (split; [assumption|]). reflexivity.
Qed.

Lemma C5_string_mode_witness :
  run 2 [[dquote; backslash; dquote; rbrace; dquote]] =
    Running (Config 0 3 (set_string_char dquote (set_in_string true init))).
Proof.
  destruct (C5_string_mode
              [[dquote; backslash; dquote; rbrace; dquote]] 1
              (Config 0 1 (set_string_char dquote (set_in_string true init)))
              backslash (Some dquote) eq_refl eq_refl eq_refl)
    as (_ & H & _).
  apply H. reflexivity.
Defined.

Lemma run_add_succ : forall lines n k c,
  run (n + k) lines = Running c ->
  run (n + S k) lines = machine_step lines c.
Proof.
  intros lines n k c H. rewrite Nat.add_succ_r. now apply run_succ.
Qed.

Lemma run_line_comment : forall lines n c line,
  run n lines = Running c -> nth_error lines (ci c) = Some line ->
  mode_of (cs c) = InLineComment ->
  forall k, cj c + k < length line ->
  run (n + k) lines = Running (Config (ci c) (cj c + k) (cs c)).
Proof.
  intros lines n c line R El M. induction k as [|k IH]; intros L.
  - rewrite !Nat.add_0_r, R. now destruct c.
  - rewrite (run_add_succ _ _ _ _ (IH ltac:(lia))).
    rewrite (machine_step_continue lines _ line (cj c + S k) (cs c));
      cbn [ci cj cs]; try assumption; try lia; try reflexivity.
    rewrite step_in_line_comment by assumption.
    replace (cj c + k + 1) with (cj c + S k) by lia.
    destruct (Nat.eqb_spec (cj c + k) (length line - 1)); [lia|reflexivity].
Qed.

(** C6.  From a character examined in a line comment on: every later
    character of the line is examined in the same mode with the same
    variables (the stack among them); the iteration at the last
    character ends the comment, and the next line, empty or not, starts
    in Normal mode with the stack as it was.  No line at all starts
    inside a line comment.  On the comment with a brace followed by a
    second line the call reports success. *)
Theorem C6_line_comment : forall lines n c line,
  run n lines = Running c ->
  nth_error lines (ci c) = Some line ->
  cj c < length line ->
  mode_of (cs c) = InLineComment ->
  (forall k, cj c + k < length line ->
   run (n + k) lines = Running (Config (ci c) (cj c + k) (cs c))) /\
  run (n + (length line - cj c)) lines =
    Running (Config (ci c) (length line) (set_in_comment false (cs c))) /\
  run (n + (length line - cj c) + 1) lines =
    Running (Config (S (ci c)) 0 (set_in_comment false (cs c))) /\
  mode_of (set_in_comment false (cs c)) = Normal /\
  stack (set_in_comment false (cs c)) = stack (cs c) /\
  (forall m c', run m lines = Running c' -> cj c' = 0 ->
                mode_of (cs c') <> InLineComment) /\
  check_balance (lit "// {" ++ [LF] ++ lit "foo") = Some NoUnbalanced.
Proof.
  intros lines n c line R El L M.
  pose proof (run_line_comment lines n c line R El M) as A.
  assert (B : run (n + (length line - cj c)) lines =
              Running (Config (ci c) (length line)
                              (set_in_comment false (cs c)))).
  { replace (length line - cj c) with (S (length line - cj c - 1)) by lia.
    rewrite (run_add_succ _ _ _ _ (A (length line - cj c - 1) ltac:(lia))).
    rewrite (machine_step_continue lines _ line (length line)
               (set_in_comment false (cs c)));
      cbn [ci cj cs]; try assumption; try lia; try reflexivity.
    rewrite step_in_line_comment by assumption.
    replace (cj c + (length line - cj c - 1) + 1) with (length line) by lia.
    destruct (Nat.eqb_spec (cj c + (length line - cj c - 1))
                           (length line - 1)); [reflexivity|lia]. }
  split; [assumption|]. split; [assumption|]. split; [|split; [|split]].
  - rewrite Nat.add_1_r, (run_succ _ _ _ B).
    rewrite (machine_step_newline lines _ line); cbn [ci cj cs];
      [reflexivity|assumption|lia].
  - pose proof (run_wf _ _ _ R) as W. apply mode_line_comment in M.
    destruct (wf_comment _ W M) as [W1 W2].
    apply mode_normal. cbn. auto.
  - reflexivity.
  - split; [|reflexivity]. intros m c' Rm Z Mc.
    apply mode_line_comment in Mc.
    rewrite (run_line_start _ _ _ Rm Z) in Mc. discriminate.
Qed.

Lemma C6_line_comment_witness :
  run (1 + (4 - 1) + 1) [lit "// {"; []; lit "}"] =
    Running (Config 1 0 init).
Proof.
  destruct (C6_line_comment [lit "// {"; []; lit "}"] 1
              (Config 0 1 (set_in_comment true init)) (lit "// {")
              eq_refl eq_refl ltac:(cbn; lia) eq_refl)
    as (_ & _ & H & _).
  exact H.
Defined.

(** C7.  When the iteration at a character stops the scan: the call
    reports exactly that diagnostic, an unexpected or a mismatched
    closing bracket placed at that character; nothing stopped the scan
    before; every configuration the scan ever reaches lies at or before
    that character in scan order, so no later character is examined;
    and the scan stays stopped with the same diagnostic.  On a text with
    a mismatch on line 1 and an unexpected closing bracket on line 2 the
    mismatch is reported, and with the two lines exchanged the
    unexpected closing bracket is. *)
Theorem C7_first_error_wins : forall lines n c char o,
  run n lines = Running c ->
  current lines c = Some char ->
  run (S n) lines = Halted o ->
  scan_lines lines = Some o /\
  (o = Unexpected char (ci c + 1) (cj c + 1) \/
   exists expected last_char last_line last_col,
     o = Mismatched char (ci c + 1) (cj c + 1) expected
                    last_char last_line last_col) /\
  (forall m, m <= n -> exists c', run m lines = Running c') /\
  (forall m c', run m lines = Running c' -> pos_le c' c) /\
  (forall m, n < m -> run m lines = Halted o) /\
  check_balance (lit "(]" ++ [LF] ++ lit ")") =
    Some (Mismatched rbracket 1 2 rparen lparen 1 1) /\
  check_balance (lit ")" ++ [LF] ++ lit "(]") =
    Some (Unexpected rparen 1 1).
Proof.
  intros lines n c char o R Cur H.
  destruct (current_inv _ _ _ Cur) as (line & El & L & Ch).
  pose proof (run_wf _ _ _ R) as W.
  split; [eapply run_halted; eassumption|].
  split; [|split; [|split; [|split; [|split; reflexivity]]]].
  - rewrite (run_succ _ _ _ R) in H. unfold machine_step in H.
    rewrite El in H. apply Nat.ltb_lt in L. rewrite L in H.
    destruct (step (ci c) line (cj c) (cs c)) as [j' s'|o'] eqn:S1;
      [discriminate|].
    injection H as ->. subst char.
    pose proof S1 as S2. step_cases S1; try (left; reflexivity);
      try (right; eauto);
      exfalso; eapply step_no_key_error; eassumption.
  - intros m Lm. eapply run_running_earlier; eassumption.
  - intros m c' Rm. unfold pos_le.
    destruct (Nat.lt_total m n) as [Lm|[->|Lm]].
    + pose proof (run_pos_lt _ _ _ _ _ Rm R Lm) as P.
      unfold pos_lt in P. lia.
    + rewrite R in Rm. injection Rm as <-. lia.
    + rewrite (run_halted_later lines (S n) m o H Lm) in Rm. discriminate.
  - intros m Lm. eapply run_halted_later; [eassumption|lia].
Qed.

Lemma C7_first_error_wins_witness :
  scan_lines [lit "{)"; lit "]"] =
    Some (Mismatched rparen 1 2 rbrace lbrace 1 1).
Proof.
  apply (C7_first_error_wins [lit "{)"; lit "]"] 1
           (Config 0 1 (set_stack [Frame lbrace 1 1] init)) rparen
           (Mismatched rparen 1 2 rbrace lbrace 1 1)
           eq_refl eq_refl eq_refl).
Defined.

Lemma open_in_balanced_incl : forall h st,
  open_in h st -> forall f, In f st -> In f h.
Proof.
  induction 1 as [b B|h st o b H IH O B]; intros f I; [contradiction|].
  apply in_app_or in I as [I|[<-|[]]]; apply in_or_app.
  - left. now apply IH.
  - right. now left.
Qed.

Lemma event_at_inv : forall lines c f,
  In f (event_at lines c) ->
  mode_of (cs c) = Normal /\ current lines c = Some (kind f) /\
  fline f = ci c + 1 /\ fcol f = cj c + 1.
Proof.
  intros lines c f. unfold event_at.
  destruct (current lines c) as [char|]; [|contradiction].
  destruct (mode_of (cs c)); try contradiction.
  destruct (is_opener char || is_closer char); [|contradiction].
  intros [<-|[]]. cbn. auto.
Qed.

Lemma history_in : forall lines n f,
  In f (history n lines) ->
  exists m c, m < n /\ run m lines = Running c /\ In f (event_at lines c).
Proof.
  intros lines. induction n as [|n IH]; intros f I; [contradiction|].
  simpl in I. destruct (run n lines) as [c|o] eqn:R.
  - apply in_app_or in I as [I|I].
    + destruct (IH f I) as (m & c0 & L & Rm & E).
      exists m, c0. split; [lia|auto].
    + exists n, c. split; [lia|auto].
  - destruct (IH f I) as (m & c0 & L & Rm & E).
    exists m, c0. split; [lia|auto].
Qed.

(** C8.  At every configuration the scan reaches, the stack is the list
    of unmatched opening brackets of the history of brackets examined
    in Normal mode so far: the history is the stack entries in order,
    oldest first, with only balanced runs of brackets between and after
    them, and no other list has that property.  Each entry is an opening
    bracket that some earlier iteration examined in Normal mode, and it
    records that character with its line and column counted from 1. *)
Theorem C8_stack_invariant : forall lines n c,
  run n lines = Running c ->
  open_in (history n lines) (stack (cs c)) /\
  (forall st, open_in (history n lines) st -> st = stack (cs c)) /\
  (forall f, In f (stack (cs c)) ->
   is_opener (kind f) = true /\
   exists m c0, m < n /\ run m lines = Running c0 /\
                mode_of (cs c0) = Normal /\
                current lines c0 = Some (kind f) /\
                fline f = ci c0 + 1 /\ fcol f = cj c0 + 1).
Proof.
  intros lines n c R. pose proof (run_open_in _ _ _ R) as O.
  split; [assumption|]. split.
  - intros st O'. eapply open_in_unique; eassumption.
  - intros f I. split.
    + pose proof (run_wf _ _ _ R) as [_ _ _ F].
      rewrite Forall_forall in F. now apply F.
    + apply (open_in_balanced_incl _ _ O) in I.
      apply history_in in I as (m & c0 & L & Rm & E).
      apply event_at_inv in E as (E1 & E2 & E3 & E4).
      exists m, c0. repeat split; assumption.
Qed.

Lemma C8_stack_invariant_witness :
  open_in (history 6 [lit "{(a)["; lit "/*(*/"])
          [Frame lbrace 1 1; Frame lbracket 1 5].
Proof.
  apply (C8_stack_invariant [lit "{(a)["; lit "/*(*/"] 6
           (Config 1 0 (set_stack [Frame lbrace 1 1; Frame lbracket 1 5]
                                  init))
           eq_refl).
Defined.

(** C9.  The outcome of a call is a function of the text alone: every
    call ends with an outcome, the scan on that text stops with it after
    a number of moves that the text bounds, and no run on the same text,
    however long it is followed, stops with another outcome. *)
Theorem C9_deterministic : forall content,
  exists o, check_balance content = Some o /\
    run (S (extent (splitlines content))) (splitlines content) = Halted o /\
    (forall n o', run n (splitlines content) = Halted o' -> o' = o).
Proof.
  intros content. destruct (run_halts (splitlines content)) as (o & R & H).
  exists o. split; [assumption|]. split; [assumption|].
  intros n o' R'. apply run_halted in R'. congruence.
Qed.

(** C10.  A backslash that is the last character of a line inside a
    string moves [j] past the end of the line and nothing else: the next
    line starts at its first character with the same variables, still
    inside the string.  When that first character is the quote that ends
    the string the scan is in Normal mode after it; any other character
    but a backslash leaves it inside the string.  On a double quote and
    a backslash on line 1, and a double quote and an opening brace on
    line 2, the brace is outside the string and reported as unclosed. *)
Theorem C10_escape_at_line_end : forall lines n c line q next,
  run n lines = Running c ->
  nth_error lines (ci c) = Some line ->
  cj c + 1 = length line ->
  current lines c = Some backslash ->
  mode_of (cs c) = InString (Some q) ->
  nth_error lines (S (ci c)) = Some next ->
  run (n + 1) lines = Running (Config (ci c) (cj c + 2) (cs c)) /\
  run (n + 2) lines = Running (Config (S (ci c)) 0 (cs c)) /\
  (nth_error next 0 = Some q ->
   run (n + 3) lines =
     Running (Config (S (ci c)) 1 (set_in_string false (cs c))) /\
   mode_of (set_in_string false (cs c)) = Normal) /\
  (forall char, nth_error next 0 = Some char ->
   char <> q -> char <> backslash ->
   run (n + 3) lines = Running (Config (S (ci c)) 1 (cs c))) /\
  check_balance ([dquote; backslash; LF; dquote] ++ lit "{") =
    Some (Unclosed (Frame lbrace 2 2) 1 [Frame lbrace 2 2]).
Proof.
  intros lines n c line q next R El L Cur M En.
  pose proof M as M'. apply mode_string in M' as (F1 & F2 & F3 & F4).
  destruct (run_in_string lines n c backslash (Some q) R Cur M)
    as (Hq & Hb & _).
  assert (A : run (n + 1) lines = Running (Config (ci c) (cj c + 2) (cs c))).
  { rewrite Nat.add_1_r. now apply Hb. }
  assert (B : run (n + 2) lines = Running (Config (S (ci c)) 0 (cs c))).
  { replace (n + 2) with (S (n + 1)) by lia. rewrite (run_succ _ _ _ A).
    rewrite (machine_step_newline lines _ line); cbn [ci cj cs];
      [|assumption|lia].
    now rewrite set_in_comment_false_id. }
  assert (Cn : forall char, nth_error next 0 = Some char ->
               current lines (Config (S (ci c)) 0 (cs c)) = Some char).
  { intros char E. unfold current. cbn [ci cj]. now rewrite En. }
  split; [assumption|]. split; [assumption|]. split; [|split].
  - intros E.
    destruct (run_in_string lines (n + 2) _ q (Some q) B (Cn _ E) M)
      as (_ & _ & Ht & _).
    replace (n + 3) with (S (n + 2)) by lia. split; [now apply Ht|].
    apply mode_normal. cbn. auto.
  - intros char E D1 D2.
    destruct (run_in_string lines (n + 2) _ char (Some q) B (Cn _ E) M)
      as (_ & _ & _ & Ho).
    replace (n + 3) with (S (n + 2)) by lia. apply Ho; congruence.
  - reflexivity.
Qed.

Lemma C10_escape_at_line_end_witness :
  run (1 + 3) [[dquote; backslash]; [dquote; lbrace]] =
    Running (Config 1 1 (set_in_string false
                (set_string_char dquote (set_in_string true init)))).
Proof.
  destruct (C10_escape_at_line_end
              [[dquote; backslash]; [dquote; lbrace]] 1
              (Config 0 1 (set_string_char dquote (set_in_string true init)))
              [dquote; backslash] dquote [dquote; lbrace]
              eq_refl eq_refl eq_refl eq_refl eq_refl eq_refl)
    as (_ & _ & H & _).
  apply H. reflexivity.
Defined.

(** * Further properties of [check_balance] *)

(** ** How a scan ends *)

Lemma run_last : forall lines m o,
  run m lines = Halted o ->
  exists n c, n < m /\ run n lines = Running c /\
              machine_step lines c = Halted o.
Proof.
  intros lines. induction m as [|m IH]; intros o H; [discriminate|].
  simpl in H. destruct (run m lines) as [c|o'] eqn:R.
  - exists m, c. split; [lia|auto].
  - destruct (IH o' eq_refl) as (n & c & L & Rn & St).
    injection H as <-. exists n, c. split; [lia|auto].
Qed.

Lemma machine_step_halted_inv : forall lines c o,
  machine_step lines c = Halted o ->
  (nth_error lines (ci c) = None /\ o = report (stack (cs c))) \/
  (exists line, nth_error lines (ci c) = Some line /\ cj c < length line /\
                step (ci c) line (cj c) (cs c) = Return o).
Proof.
  intros lines c o. unfold machine_step.
  destruct (nth_error lines (ci c)) as [line|].
  - destruct (cj c <? length line) eqn:L; [|discriminate].
    apply Nat.ltb_lt in L.
    destruct (step (ci c) line (cj c) (cs c)) as [j' s'|o'] eqn:St;
      [discriminate|].
    intros H. injection H as ->. right. eauto.
  - intros H. injection H as <-. left. auto.
Qed.

(** The two ways an iteration returns. *)
Lemma step_return_inv : forall i line j s o,
  wf_state s -> step i line j s = Return o ->
  mode_of s = Normal /\ is_closer (nth j line 0%N) = true /\
  ((stack s = [] /\ o = Unexpected (nth j line 0%N) (i + 1) (j + 1)) \/
   (exists st f e,
      stack s = st ++ [f] /\ closer_of (kind f) = Some e /\
      e <> nth j line 0%N /\
      o = Mismatched (nth j line 0%N) (i + 1) (j + 1) e
                     (kind f) (fline f) (fcol f))).
Proof.
  intros i line j s o W H. pose proof H as H'.
  step_cases H;
    (split; [apply mode_normal; auto|]);
    (split; [first [assumption|reflexivity]|]);
    try (left; split; [apply pop_none; assumption|reflexivity]);
    try (exfalso; eapply step_no_key_error; eassumption);
    right;
    match goal with
    | P : pop (stack s) = Some (?f, ?st), C : closer_of _ = Some ?e,
      D : negb _ = true |- _ =>
        exists st, f, e; apply pop_some in P;
        apply negb_true_iff, N.eqb_neq in D;
        repeat split; [assumption|assumption|congruence]
    end.
Qed.

Lemma scan_lines_inv : forall lines o,
  scan_lines lines = Some o ->
  exists n c,
    run n lines = Running c /\ run (S n) lines = Halted o /\
    ((nth_error lines (ci c) = None /\ o = report (stack (cs c))) \/
     (exists ch,
        current lines c = Some ch /\ mode_of (cs c) = Normal /\
        is_closer ch = true /\
        ((stack (cs c) = [] /\ o = Unexpected ch (ci c + 1) (cj c + 1)) \/
         (exists st f e,
            stack (cs c) = st ++ [f] /\ closer_of (kind f) = Some e /\
            e <> ch /\
            o = Mismatched ch (ci c + 1) (cj c + 1) e
                           (kind f) (fline f) (fcol f))))).
Proof.
  intros lines o H. destruct (run_halts lines) as (o' & R & H').
  assert (o' = o) as -> by congruence.
  destruct (run_last _ _ _ R) as (n & c & _ & Rn & St).
  exists n, c. split; [assumption|].
  split; [now rewrite (run_succ _ _ _ Rn)|].
  destruct (machine_step_halted_inv _ _ _ St)
    as [[E ->]|(line & E & L & S1)]; [left; auto|right].
  destruct (step_return_inv _ _ _ _ _ (run_wf _ _ _ Rn) S1)
    as (M & C & Cases).
  exists (nth (cj c) line 0%N).
  split; [now apply current_some|]. auto.
Qed.

(** ** What an iteration does to the stack *)

Lemma step_stack_cases : forall i line j s j' s',
  step i line j s = Continue j' s' ->
  stack s' = stack s \/
  (is_opener (nth j line 0%N) = true /\
   stack s' = stack s ++ [Frame (nth j line 0%N) (i + 1) (j + 1)]) \/
  (exists f, stack s = stack s' ++ [f]).
Proof.
  intros i line j s j' s' H.
  step_cases H; try (left; reflexivity);
    try (right; left; split; [first [assumption|reflexivity]|reflexivity]);
    right; right;
    match goal with
    | P : pop (stack s) = Some (?f, _) |- _ =>
        exists f; apply pop_some in P; exact P
    end.
Qed.

Lemma machine_step_stack_cases : forall lines c c',
  machine_step lines c = Running c' ->
  stack (cs c') = stack (cs c) \/
  (exists ch, current lines c = Some ch /\ is_opener ch = true /\
              stack (cs c') =
                stack (cs c) ++ [Frame ch (ci c + 1) (cj c + 1)]) \/
  (exists f, stack (cs c) = stack (cs c') ++ [f]).
Proof.
  intros lines c c' H. unfold machine_step in H.
  destruct (nth_error lines (ci c)) as [line|] eqn:E; [|discriminate].
  destruct (cj c <? length line) eqn:L.
  - apply Nat.ltb_lt in L.
    destruct (step (ci c) line (cj c) (cs c)) as [j' s'|o] eqn:St;
      [|discriminate].
    injection H as <-. cbn [cs].
    destruct (step_stack_cases _ _ _ _ _ _ St) as [A|[[O A]|A]]; auto.
    right. left. exists (nth (cj c) line 0%N).
    split; [now apply current_some|auto].
  - injection H as <-. left. reflexivity.
Qed.

(** ** The stack entries are brackets of the text, in scan order *)

Lemma current_char_at : forall lines c ch,
  current lines c = Some ch ->
  char_at lines (ci c + 1) (cj c + 1) = Some ch.
Proof.
  intros lines c ch H. rewrite !Nat.add_1_r. exact H.
Qed.

Lemma run_stack_in_text : forall lines n c,
  run n lines = Running c -> Forall (frame_in_text lines) (stack (cs c)).
Proof.
  intros lines. induction n as [|n IH]; intros c H.
  - injection H as <-. constructor.
  - simpl in H. destruct (run n lines) as [c0|o]; [|discriminate].
    specialize (IH c0 eq_refl).
    destruct (machine_step_stack_cases _ _ _ H)
      as [->|[(ch & Cur & O & ->)|(f & E)]].
    + assumption.
    + apply Forall_app. split; [assumption|]. constructor; [|constructor].
      split; [exact O|]. cbn [kind fline fcol].
      now apply current_char_at.
    + rewrite E in IH. now apply Forall_app in IH as [IH _].
Qed.

Lemma sorted_snoc : forall st f,
  StronglySorted frame_lt st -> Forall (fun g => frame_lt g f) st ->
  StronglySorted frame_lt (st ++ [f]).
Proof.
  induction st as [|a st IH]; intros f S F; simpl.
  - constructor; constructor.
  - inversion S as [|? ? S' Fa]; subst. inversion F as [|? ? La F']; subst.
    constructor; [now apply IH|].
    apply Forall_app. split; [assumption|]. constructor; [assumption|].
    constructor.
Qed.

Lemma sorted_prefix : forall st more,
  StronglySorted frame_lt (st ++ more) -> StronglySorted frame_lt st.
Proof.
  induction st as [|a st IH]; intros more S; [constructor|].
  simpl in S. inversion S as [|? ? S' Fa]; subst.
  constructor; [eapply IH; eassumption|].
  now apply Forall_app in Fa as [Fa _].
Qed.

Lemma run_stack_order : forall lines n c,
  run n lines = Running c ->
  Forall (frame_before c) (stack (cs c)) /\
  StronglySorted frame_lt (stack (cs c)).
Proof.
  intros lines. induction n as [|n IH]; intros c H.
  - injection H as <-. split; constructor.
  - simpl in H. destruct (run n lines) as [c0|o]; [|discriminate].
    destruct (IH c0 eq_refl) as [B S].
    pose proof (machine_step_pos _ _ _ H) as P.
    assert (M : forall f, frame_before c0 f -> frame_before c f).
    { intros f. unfold frame_before, pos_lt in *. lia. }
    destruct (machine_step_stack_cases _ _ _ H)
      as [->|[(ch & Cur & O & ->)|(f & E)]].
    + split; [|assumption].
      eapply Forall_impl; [exact M|assumption].
    + split.
      * apply Forall_app. split.
        -- eapply Forall_impl; [exact M|assumption].
        -- constructor; [|constructor].
           unfold frame_before, pos_lt in *. cbn [fline fcol]. lia.
      * apply sorted_snoc; [assumption|].
        eapply Forall_impl; [|exact B]. intros g G.
        unfold frame_before, frame_lt in *. cbn [fline fcol]. lia.
    + rewrite E in B, S. split.
      * apply Forall_app in B as [B _].
        eapply Forall_impl; [exact M|assumption].
      * eapply sorted_prefix; eassumption.
Qed.

(** ** The line comment flag at the end of a line *)

Lemma run_comment_inside : forall lines n c,
  run n lines = Running c -> in_comment (cs c) = true ->
  exists line, nth_error lines (ci c) = Some line /\ cj c < length line.
Proof.
  intros lines. induction n as [|n IH]; intros c H T.
  - injection H as <-. discriminate.
  - simpl in H. destruct (run n lines) as [[i j s]|o]; [|discriminate].
    specialize (IH _ eq_refl). unfold machine_step in H.
    cbn [ci cj cs] in *.
    destruct (nth_error lines i) as [line|] eqn:E; [|discriminate].
    destruct (j <? length line) eqn:L.
    + apply Nat.ltb_lt in L.
      destruct (step i line j s) as [j' s'|o] eqn:St; [|discriminate].
      injection H as <-. cbn [ci cj cs] in *. exists line.
      split; [assumption|].
      step_cases St; cbn in T; try congruence;
        repeat match goal with
          | B : _ && _ = true |- _ => apply andb_true_iff in B as [? B]
          | B : (_ <? _) = true |- _ => apply Nat.ltb_lt in B
          | B : Nat.eqb _ _ = false |- _ => apply Nat.eqb_neq in B
          end; lia.
    + injection H as <-. cbn in T. discriminate.
Qed.

(** ** Scanning lines one after the other *)

Lemma for_loop_app : forall l1 l2 i s,
  for_loop i (l1 ++ l2) s =
    match for_loop i l1 s with
    | Some (inl s') => for_loop (i + length l1) l2 s'
    | r => r
    end.
Proof.
  induction l1 as [|line l1 IH]; intros l2 i s; simpl.
  - now rewrite Nat.add_0_r.
  - destruct (while_loop (length line) i line 0 s) as [[s'|o]|];
      try reflexivity.
    rewrite IH. now rewrite Nat.add_succ_r.
Qed.

Lemma scan_lines_error_inr : forall lines o,
  scan_lines lines = Some o -> is_error o = true ->
  for_loop 0 lines init = Some (inr o).
Proof.
  intros lines o H E. unfold scan_lines in H.
  destruct (for_loop 0 lines init) as [[s|o']|]; simpl in H;
    [|congruence|discriminate].
  injection H as <-. unfold report in E.
  destruct (stack s); discriminate.
Qed.

Lemma char_at_in : forall lines l k ch,
  char_at lines l k = Some ch ->
  exists line, In line lines /\ In ch line.
Proof.
  intros lines [|l] [|k] ch H; try discriminate. simpl in H.
  destruct (nth_error lines l) as [line|] eqn:E; [|discriminate].
  exists line. split; eapply nth_error_In; eassumption.
Qed.

Lemma report_in_text : forall lines st,
  Forall (frame_in_text lines) st ->
  match report st with
  | NoUnbalanced => st = []
  | Unclosed f total few =>
      frame_in_text lines f /\ total = length st /\ 1 <= total /\
      Forall (frame_in_text lines) few
  | _ => False
  end.
Proof.
  intros lines [|f st] F; [reflexivity|]. cbn [report].
  split; [now inversion F|]. split; [reflexivity|].
  split; [simpl; lia|].
  rewrite (last_slice_split 5 (f :: st)) in F.
  now apply Forall_app in F as [_ F].
Qed.

(** Every outcome but success names brackets of the text. *)
Lemma outcome_located : forall lines o,
  scan_lines lines = Some o ->
  match o with
  | NoUnbalanced => True
  | Unexpected ch l k =>
      is_closer ch = true /\ char_at lines l k = Some ch
  | Mismatched ch l k e lc ll lk =>
      is_closer ch = true /\ char_at lines l k = Some ch /\
      is_opener lc = true /\ char_at lines ll lk = Some lc /\
      closer_of lc = Some e /\ e <> ch /\
      (ll < l \/ (ll = l /\ lk < k))
  | Unclosed f total few =>
      frame_in_text lines f /\ 1 <= total /\
      Forall (frame_in_text lines) few
  | RaisedKeyError _ => False
  end.
Proof.
  intros lines o H.
  destruct (scan_lines_inv _ _ H) as (n & c & R & _ & Cases).
  pose proof (run_stack_in_text _ _ _ R) as T.
  destruct Cases as [[E ->]|(ch & Cur & M & C & [[E ->]|Mis])].
  - pose proof (report_in_text _ _ T) as P.
    destruct (report (stack (cs c))); try exact I; try contradiction.
    destruct P as (P1 & _ & P2 & P3). auto.
  - split; [assumption|now apply current_char_at].
  - destruct Mis as (st & f & e & E & X & D & ->).
    destruct (run_stack_order _ _ _ R) as [B _].
    rewrite E in T, B.
    apply Forall_app in T as [_ T]. apply Forall_app in B as [_ B].
    inversion T as [|? ? [T1 T2] _]; subst.
    inversion B as [|? ? B1 _]; subst.
    split; [assumption|]. split; [now apply current_char_at|].
    repeat split; assumption.
Qed.

(** X1.  Every call ends with one of the four reports; the lookup of the
    popped opening bracket in the dict of closing brackets never raises
    [KeyError], because only opening brackets are ever pushed. *)
Theorem X1_never_raises_key_error : forall content,
  exists o, check_balance content = Some o /\
            forall k, o <> RaisedKeyError k.
Proof.
  intros content. destruct (check_balance_total content) as [o H].
  exists o. split; [assumption|]. intros k ->.
  exact (outcome_located _ _ H).
Qed.

(** X2.  At every point of the scan at most one of the three flags
    [in_comment], [in_multiline_comment] and [in_string] is set, and
    while [in_string] is set [string_char] is one of the three quotes. *)
Theorem X2_flags_exclusive : forall lines n c,
  run n lines = Running c ->
  (in_comment (cs c) = true ->
   in_multiline_comment (cs c) = false /\ in_string (cs c) = false) /\
  (in_multiline_comment (cs c) = true -> in_string (cs c) = false) /\
  (in_string (cs c) = true ->
   exists q, string_char (cs c) = Some q /\ is_quote q = true).
Proof.
  intros lines n c R. destruct (run_wf _ _ _ R) as [W1 W2 W3 _]. auto.
Qed.

Lemma X2_flags_exclusive_witness :
  exists q, string_char (set_string_char squote (set_in_string true
              (set_stack [Frame lbrace 1 1] init))) = Some q /\
            is_quote q = true.
Proof.
  destruct (X2_flags_exclusive [[lbrace; squote; slash; star]] 2
              (Config 0 2 (set_string_char squote (set_in_string true
                 (set_stack [Frame lbrace 1 1] init)))) eq_refl)
    as (_ & _ & H).
  apply H. reflexivity.
Defined.

Lemma open_in_nil_balanced : forall h, open_in h [] -> balanced h.
Proof.
  intros h H. inversion H as [b B E1 E2|h' st o b H' O B E1 E2];
    [assumption|]. destruct st; discriminate.
Qed.

(** X3.  The call reports success exactly when the brackets that the
    scan examined in Normal mode, up to the end of the text, form a
    balanced sequence: matching pairs, properly nested. *)
Theorem X3_success_iff_balanced : forall lines,
  scan_lines lines = Some NoUnbalanced <->
  exists n c, run n lines = Running c /\ nth_error lines (ci c) = None /\
              balanced (history n lines).
Proof.
  intros lines. split.
  - intros H.
    destruct (scan_lines_inv _ _ H) as (n & c & R & _ & Cases).
    exists n, c. split; [assumption|].
    destruct Cases as [[E Rep]|(ch & _ & _ & _ & [[_ D]|Mis])].
    + split; [assumption|]. pose proof (run_open_in _ _ _ R) as O.
      unfold report in Rep. destruct (stack (cs c)); [|discriminate].
      now apply open_in_nil_balanced.
    + discriminate.
    + destruct Mis as (st & f & e & _ & _ & _ & D). discriminate.
  - intros (n & c & R & E & B).
    pose proof (run_open_in _ _ _ R) as O.
    pose proof (open_in_unique _ _ _ O (open_none _ B)) as Sk.
    apply (run_halted lines (S n)). rewrite (run_succ _ _ _ R).
    unfold machine_step. now rewrite E, Sk.
Qed.

(** X4.  Every diagnostic points at brackets of the text.  An
    unexpected closing bracket is the character at the reported line and
    column.  A mismatch reports the closing bracket found at its place,
    an opening bracket found at its own, earlier place, and as expected
    the closing bracket of that opening bracket, which differs from the
    one found.  An unclosed report names an opening bracket found at its
    place, a total of at least one, and last entries that are opening
    brackets found at their places. *)
Theorem X4_diagnostics_point_into_text : forall lines o,
  scan_lines lines = Some o ->
  match o with
  | NoUnbalanced => True
  | Unexpected ch l k =>
      is_closer ch = true /\ char_at lines l k = Some ch
  | Mismatched ch l k e lc ll lk =>
      is_closer ch = true /\ char_at lines l k = Some ch /\
      is_opener lc = true /\ char_at lines ll lk = Some lc /\
      closer_of lc = Some e /\ e <> ch /\
      (ll < l \/ (ll = l /\ lk < k))
  | Unclosed f total few =>
      frame_in_text lines f /\ 1 <= total /\
      Forall (frame_in_text lines) few
  | RaisedKeyError _ => False
  end.
Proof. exact outcome_located. Qed.

Lemma X4_diagnostics_point_into_text_witness :
  char_at [lit "a[b"; lit "c}"] 2 2 = Some rbrace /\
  char_at [lit "a[b"; lit "c}"] 1 2 = Some lbracket.
Proof.
  pose proof (X4_diagnostics_point_into_text [lit "a[b"; lit "c}"]
                (Mismatched rbrace 2 2 rbracket lbracket 1 2) eq_refl) as H.
  cbv beta iota in H. destruct H as (_ & H1 & _ & H2 & _). now split.
Defined.

(** X5.  At every point of the scan the stack entries are in scan order:
    each entry lies strictly before the entries above it, and all of
    them lie before the character under the scan.  So [stack[0]] is the
    earliest bracket still open and the last entries are the latest. *)
Theorem X5_stack_in_scan_order : forall lines n c,
  run n lines = Running c ->
  StronglySorted frame_lt (stack (cs c)) /\
  Forall (frame_before c) (stack (cs c)).
Proof.
  intros lines n c R. destruct (run_stack_order _ _ _ R). auto.
Qed.

Lemma X5_stack_in_scan_order_witness :
  StronglySorted frame_lt [Frame lparen 1 1; Frame lbrace 3 1].
Proof.
  apply (X5_stack_in_scan_order [lit "(["; lit "]"; lit "{"] 6
           (Config 2 1 (set_stack [Frame lparen 1 1; Frame lbrace 3 1] init))).
  reflexivity.
Defined.

(** X6.  Scanning is compositional in the lines: when the first lines
    are scanned to their end without a diagnostic, the scan of a longer
    text goes on from the variables they leave, with the line count
    continuing, and reports what the rest gives. *)
Theorem X6_scan_continues_over_more_lines : forall lines more s,
  for_loop 0 lines init = Some (inl s) ->
  scan_lines (lines ++ more) = finish (for_loop (length lines) more s).
Proof.
  intros lines more s H. unfold scan_lines.
  now rewrite for_loop_app, H.
Qed.

Lemma X6_scan_continues_over_more_lines_witness :
  scan_lines ([lit "{["] ++ [lit "]"; lit ")"]) =
    Some (Mismatched rparen 3 1 rbrace lbrace 1 1).
Proof.
  rewrite (X6_scan_continues_over_more_lines [lit "{["] [lit "]"; lit ")"]
             (set_stack [Frame lbrace 1 1; Frame lbracket 1 2] init)
             eq_refl).
  reflexivity.
Defined.

(** X7.  An unexpected or mismatched closing bracket is final: whatever
    lines follow in the text, the call reports the same diagnostic. *)
Theorem X7_error_survives_more_lines : forall lines more o,
  scan_lines lines = Some o -> is_error o = true ->
  scan_lines (lines ++ more) = Some o.
Proof.
  intros lines more o H E. apply scan_lines_error_inr in H; [|assumption].
  unfold scan_lines. now rewrite for_loop_app, H.
Qed.

Lemma X7_error_survives_more_lines_witness :
  scan_lines ([lit "(}"] ++ [lit "{"; lit ")"]) =
    Some (Mismatched rbrace 1 2 rparen lparen 1 1).
Proof.
  apply (X7_error_survives_more_lines [lit "(}"] [lit "{"; lit ")"]
           (Mismatched rbrace 1 2 rparen lparen 1 1) eq_refl eq_refl).
Defined.

(** X8.  When the [while] loop of a line ends, [in_comment] is already
    false, so the reset after the loop changes nothing: the next line
    starts with exactly the variables the line ended with.  A block
    comment or a string that is open at the end of a line is still open
    at the start of the next one. *)
Theorem X8_line_end_carries_state : forall lines n c line,
  run n lines = Running c ->
  nth_error lines (ci c) = Some line ->
  length line <= cj c ->
  in_comment (cs c) = false /\
  run (S n) lines = Running (Config (S (ci c)) 0 (cs c)).
Proof.
  intros lines n c line R E L.
  assert (F : in_comment (cs c) = false).
  { destruct (in_comment (cs c)) eqn:T; [|reflexivity].
    destruct (run_comment_inside _ _ _ R T) as (line' & E' & L').
    rewrite E in E'. injection E' as <-. lia. }
  split; [assumption|].
  rewrite (run_succ _ _ _ R), (machine_step_newline lines c line E L).
  now rewrite set_in_comment_false_id.
Qed.

Lemma X8_line_end_carries_state_witness :
  run 4 [lit "/*{"; lit "}"] =
    Running (Config 1 0 (set_in_multiline_comment true init)).
Proof.
  apply (X8_line_end_carries_state [lit "/*{"; lit "}"] 3
           (Config 0 3 (set_in_multiline_comment true init)) (lit "/*{")
           eq_refl eq_refl).
  cbn. lia.
Defined.

(** X9.  Inside a block comment: a star with a slash right after it on
    the same line ends the comment and the scan goes on behind the
    slash in Normal mode; at any other character, a star in the last
    column included, the scan moves one character on with all variables,
    the stack among them, unchanged. *)
Theorem X9_block_comment : forall lines n c line,
  run n lines = Running c ->
  nth_error lines (ci c) = Some line ->
  cj c < length line ->
  mode_of (cs c) = InBlockComment ->
  (nth_error line (cj c) = Some star ->
   nth_error line (cj c + 1) = Some slash ->
   run (S n) lines =
     Running (Config (ci c) (cj c + 2)
                     (set_in_multiline_comment false (cs c))) /\
   mode_of (set_in_multiline_comment false (cs c)) = Normal) /\
  (nth_error line (cj c) <> Some star \/
   nth_error line (cj c + 1) <> Some slash ->
   run (S n) lines = Running (Config (ci c) (cj c + 1) (cs c))).
Proof.
  intros lines n c line R E L M.
  pose proof (step_in_block_comment (ci c) line (cj c) (cs c) M) as S1.
  split.
  - intros A B. split.
    + rewrite (run_succ _ _ _ R).
      apply machine_step_continue with (line := line); try assumption.
      rewrite S1.
      assert (L' : cj c + 1 < length line)
        by (apply nth_error_Some; congruence).
      rewrite (nth_error_nth _ _ 0%N A), (nth_error_nth _ _ 0%N B).
      apply Nat.ltb_lt in L'. rewrite L'. reflexivity.
    + apply mode_block_comment in M as [M1 M2].
      pose proof (wf_multiline _ (run_wf _ _ _ R) M2).
      apply mode_normal. cbn. auto.
  - intros D. rewrite (run_succ _ _ _ R).
    apply machine_step_continue with (line := line); try assumption.
    rewrite S1.
    destruct (N.eqb_spec (nth (cj c) line 0%N) star) as [A|A];
      [|reflexivity].
    destruct (Nat.ltb_spec (cj c + 1) (length line)) as [L'|L'];
      [|reflexivity].
    destruct (N.eqb_spec (nth (cj c + 1) line 0%N) slash) as [B|B];
      [|reflexivity].
    exfalso. destruct D as [D|D]; apply D.
    + rewrite <- A. now apply nth_error_nth'.
    + rewrite <- B. now apply nth_error_nth'.
Qed.

Lemma X9_block_comment_witness :
  run 3 [lit "/*}*"; lit "/{"] =
    Running (Config 0 3 (set_in_multiline_comment true init)) /\
  run 4 [lit "/*}*"; lit "/{"] =
    Running (Config 0 4 (set_in_multiline_comment true init)).
Proof.
  split.
  - apply (X9_block_comment [lit "/*}*"; lit "/{"] 2
             (Config 0 2 (set_in_multiline_comment true init)) (lit "/*}*")
             eq_refl eq_refl ltac:(cbn; lia) eq_refl).
    left. discriminate.
  - apply (X9_block_comment [lit "/*}*"; lit "/{"] 3
             (Config 0 3 (set_in_multiline_comment true init)) (lit "/*}*")
             eq_refl eq_refl ltac:(cbn; lia) eq_refl).
    right. discriminate.
Defined.

Lemma run_line_comment_end : forall lines n c line,
  run n lines = Running c -> nth_error lines (ci c) = Some line ->
  cj c < length line -> mode_of (cs c) = InLineComment ->
  run (n + (length line - cj c)) lines =
    Running (Config (ci c) (length line) (set_in_comment false (cs c))).
Proof.
  intros lines n c line R El L M.
  pose proof (run_line_comment lines n c line R El M
                (length line - cj c - 1) ltac:(lia)) as A.
  replace (length line - cj c) with (S (length line - cj c - 1)) by lia.
  rewrite (run_add_succ _ _ _ _ A).
  rewrite (machine_step_continue lines _ line (length line)
             (set_in_comment false (cs c)));
    cbn [ci cj cs]; try assumption; try lia; try reflexivity.
  rewrite step_in_line_comment by assumption.
  replace (cj c + (length line - cj c - 1) + 1) with (length line) by lia.
  destruct (Nat.eqb_spec (cj c + (length line - cj c - 1))
                         (length line - 1)); [reflexivity|lia].
Qed.

Lemma set_in_comment_true_false : forall s,
  in_comment s = false -> set_in_comment false (set_in_comment true s) = s.
Proof. intros [st a q b m]. simpl. now intros ->. Qed.

(** X10.  Two slashes in Normal mode start a line comment: the scan
    moves on to the second slash with [in_comment] set, and the next
    line starts with the variables as they were before the comment,
    whatever the rest of the line holds. *)
Theorem X10_line_comment_start : forall lines n c line,
  run n lines = Running c ->
  nth_error lines (ci c) = Some line ->
  mode_of (cs c) = Normal ->
  nth_error line (cj c) = Some slash ->
  nth_error line (cj c + 1) = Some slash ->
  run (S n) lines =
    Running (Config (ci c) (cj c + 1) (set_in_comment true (cs c))) /\
  run (n + (length line - cj c) + 1) lines =
    Running (Config (S (ci c)) 0 (cs c)).
Proof.
  intros lines n c line R E M A B.
  assert (L' : cj c + 1 < length line) by (apply nth_error_Some; congruence).
  assert (R1 : run (S n) lines =
               Running (Config (ci c) (cj c + 1)
                               (set_in_comment true (cs c)))).
  { rewrite (run_succ _ _ _ R).
    apply machine_step_continue with (line := line);
      [assumption|lia|].
    rewrite step_in_normal by assumption. cbv zeta.
    rewrite (nth_error_nth _ _ 0%N A), (nth_error_nth _ _ 0%N B).
    apply Nat.ltb_lt in L'. rewrite L'. reflexivity. }
  split; [assumption|].
  apply mode_normal in M as (M1 & M2 & M3).
  pose proof (run_line_comment_end lines (S n) _ line R1 E L' eq_refl) as R2.
  cbn [ci cj cs] in R2.
  replace (S n + (length line - (cj c + 1)))
    with (n + (length line - cj c)) in R2 by lia.
  rewrite (set_in_comment_true_false _ M1) in R2.
  rewrite Nat.add_1_r, (run_succ _ _ _ R2).
  rewrite (machine_step_newline lines _ line); cbn [ci cj cs];
    [|assumption|lia].
  now rewrite set_in_comment_false_id.
Qed.

Lemma X10_line_comment_start_witness :
  run (1 + (5 - 1) + 1) [lit "(//)]"; lit ")"] =
    Running (Config 1 0 (set_stack [Frame lparen 1 1] init)).
Proof.
  apply (X10_line_comment_start [lit "(//)]"; lit ")"] 1
           (Config 0 1 (set_stack [Frame lparen 1 1] init)) (lit "(//)]")
           eq_refl eq_refl eq_refl eq_refl eq_refl).
Defined.

(** X11.  A slash in the last column of a line in Normal mode starts no
    comment, whatever the next line begins with: the scan moves on with
    all variables unchanged and the next line starts in Normal mode. *)
Theorem X11_slash_at_line_end : forall lines n c line,
  run n lines = Running c ->
  nth_error lines (ci c) = Some line ->
  mode_of (cs c) = Normal ->
  nth_error line (cj c) = Some slash ->
  cj c + 1 = length line ->
  run (S n) lines = Running (Config (ci c) (cj c + 1) (cs c)) /\
  run (S (S n)) lines = Running (Config (S (ci c)) 0 (cs c)).
Proof.
  intros lines n c line R E M A L.
  assert (R1 : run (S n) lines =
               Running (Config (ci c) (cj c + 1) (cs c))).
  { rewrite (run_succ _ _ _ R).
    apply machine_step_continue with (line := line);
      [assumption|lia|].
    rewrite step_in_normal by assumption. cbv zeta.
    rewrite (nth_error_nth _ _ 0%N A).
    destruct (Nat.ltb_spec (cj c + 1) (length line)); [lia|].
    reflexivity. }
  split; [assumption|].
  rewrite (run_succ _ _ _ R1).
  rewrite (machine_step_newline lines _ line); cbn [ci cj cs];
    [|assumption|lia].
  apply mode_normal in M as (M1 & _). now rewrite set_in_comment_false_id.
Qed.

Lemma X11_slash_at_line_end_witness :
  run 3 [lit "a/"; lit "*}"] = Running (Config 1 0 init).
Proof.
  apply (X11_slash_at_line_end [lit "a/"; lit "*}"] 1
           (Config 0 1 init) (lit "a/")
           eq_refl eq_refl eq_refl eq_refl eq_refl).
Defined.

Lemma all_chars : forall (P : N -> Prop) lines l k ch,
  Forall (Forall P) lines -> char_at lines l k = Some ch -> P ch.
Proof.
  intros P lines l k ch F H.
  destruct (char_at_in _ _ _ _ H) as (line & I1 & I2).
  rewrite Forall_forall in F. specialize (F line I1).
  rewrite Forall_forall in F. now apply F.
Qed.

(** X12.  A text without any closing bracket never gets an unexpected
    or mismatched diagnostic: the call reports success or unclosed
    brackets. *)
Theorem X12_no_closer_no_error : forall lines,
  Forall (Forall (fun ch => is_closer ch = false)) lines ->
  exists o, scan_lines lines = Some o /\ is_error o = false.
Proof.
  intros lines F. destruct (run_halts lines) as (o & _ & H).
  exists o. split; [assumption|].
  pose proof (outcome_located _ _ H) as P.
  destruct o; try reflexivity.
  - destruct P as (C & A). pose proof (all_chars _ _ _ _ _ F A). congruence.
  - destruct P as (C & A & _).
    pose proof (all_chars _ _ _ _ _ F A). congruence.
Qed.

Lemma X12_no_closer_no_error_witness :
  exists o, scan_lines [lit "{ a"; lit "( b"] = Some o /\
            is_error o = false.
Proof.
  apply (X12_no_closer_no_error [lit "{ a"; lit "( b"]).
  repeat constructor.
Defined.

(** X13.  A text without any bracket is reported as balanced, whatever
    quotes, slashes, stars and backslashes it holds. *)
Theorem X13_no_bracket_success : forall lines,
  Forall (Forall (fun ch => is_opener ch = false /\ is_closer ch = false))
         lines ->
  scan_lines lines = Some NoUnbalanced.
Proof.
  intros lines F. destruct (run_halts lines) as (o & _ & H).
  pose proof (outcome_located _ _ H) as P.
  destruct o; try assumption; try contradiction.
  - destruct P as (C & A).
    destruct (all_chars _ _ _ _ _ F A). congruence.
  - destruct P as (C & A & _).
    destruct (all_chars _ _ _ _ _ F A). congruence.
  - destruct P as ((O & A) & _).
    destruct (all_chars _ _ _ _ _ F A). congruence.
Qed.

Lemma X13_no_bracket_success_witness :
  scan_lines [[squote; slash; star]; [backslash; dquote; slash]] =
    Some NoUnbalanced.
Proof.
  apply (X13_no_bracket_success
           [[squote; slash; star]; [backslash; dquote; slash]]).
  repeat constructor.
Defined.

Lemma open_in_cons_inv : forall h st', open_in h st' ->
  forall f st, st' = f :: st ->
  exists b rest, h = b ++ f :: rest /\ balanced b.
Proof.
  induction 1 as [b B|h st0 o b H IH O B]; intros f st E; [discriminate|].
  destruct st0 as [|g st0].
  - injection E as <- <-. exists h, b.
    split; [reflexivity|now apply open_in_nil_balanced].
  - injection E as -> <-.
    destruct (IH f st0 eq_refl) as (b0 & rest & -> & B0).
    exists b0, (rest ++ o :: b). split; [|assumption].
    now rewrite <- app_assoc.
Qed.

Lemma replay_prefix : forall h1 h2 st r,
  replay st (h1 ++ h2) = Some r -> exists st', replay st h1 = Some st'.
Proof.
  induction h1 as [|e h1 IH]; intros h2 st r H; simpl in *; [eauto|].
  destruct (is_opener (kind e)); [eapply IH; eassumption|].
  destruct (pop st) as [[o st0]|]; [|discriminate].
  destruct (closer_of (kind o)) as [x|]; [|discriminate].
  destruct (N.eqb x (kind e)); [eapply IH; eassumption|discriminate].
Qed.

(** An opening bracket followed by balanced brackets only is the top of
    the stack. *)
Lemma open_in_top : forall hist st h f b,
  open_in hist st -> hist = h ++ f :: b ->
  is_opener (kind f) = true -> balanced b ->
  exists st', st = st' ++ [f].
Proof.
  intros hist st h f b O -> F B. apply replay_open_in in O.
  destruct (replay_prefix _ _ _ _ O) as [st' P].
  rewrite (replay_app _ _ _ _ P) in O. simpl in O. rewrite F in O.
  rewrite (replay_balanced _ B) in O. injection O as <-. eauto.
Qed.

Lemma unexpected_at : forall lines n c ch,
  run n lines = Running c -> current lines c = Some ch ->
  mode_of (cs c) = Normal -> is_closer ch = true -> stack (cs c) = [] ->
  scan_lines lines = Some (Unexpected ch (ci c + 1) (cj c + 1)).
Proof.
  intros lines n c ch R Cur M C E.
  destruct (current_inv _ _ _ Cur) as (line & El & L & Ch).
  apply (run_halted lines (S n)). rewrite (run_succ _ _ _ R).
  apply machine_step_return with (line := line); try assumption.
  rewrite step_bracket; [|assumption|rewrite Ch, C; apply orb_true_r].
  rewrite Ch. now apply check_brackets_closer_empty.
Qed.

Lemma mismatched_at : forall lines n c ch st f e,
  run n lines = Running c -> current lines c = Some ch ->
  mode_of (cs c) = Normal -> is_closer ch = true ->
  stack (cs c) = st ++ [f] -> closer_of (kind f) = Some e -> e <> ch ->
  scan_lines lines =
    Some (Mismatched ch (ci c + 1) (cj c + 1) e
                     (kind f) (fline f) (fcol f)).
Proof.
  intros lines n c ch st f e R Cur M C E X D.
  destruct (current_inv _ _ _ Cur) as (line & El & L & Ch).
  apply (run_halted lines (S n)). rewrite (run_succ _ _ _ R).
  apply machine_step_return with (line := line); try assumption.
  rewrite step_bracket; [|assumption|rewrite Ch, C; apply orb_true_r].
  rewrite Ch, (check_brackets_closer_top _ _ _ _ st f e C E X).
  assert (Ne : N.eqb ch e = false) by (apply N.eqb_neq; congruence).
  now rewrite Ne.
Qed.

(** X14.  What the two diagnostics of a closing bracket mean, in both
    directions.  An unexpected closing bracket is reported exactly when
    the scan reaches, in Normal mode, a closing bracket at that place
    with the brackets examined before it balanced, so that none is left
    to close.  A mismatch is reported exactly when the scan reaches, in
    Normal mode, a closing bracket at that place while the reported
    opening bracket is the innermost one still open (only balanced
    brackets were examined after it) and the expected character, the
    closing bracket that the specification pairs with that opening
    bracket, is not the one found. *)
Theorem X14_meaning_of_closing_errors : forall lines ch l k,
  (scan_lines lines = Some (Unexpected ch l k) <->
   exists n c,
     run n lines = Running c /\ current lines c = Some ch /\
     mode_of (cs c) = Normal /\ is_closer ch = true /\
     l = ci c + 1 /\ k = cj c + 1 /\
     balanced (history n lines)) /\
  (forall e lc ll lk,
   scan_lines lines = Some (Mismatched ch l k e lc ll lk) <->
   exists n c h b,
     run n lines = Running c /\ current lines c = Some ch /\
     mode_of (cs c) = Normal /\ is_closer ch = true /\
     l = ci c + 1 /\ k = cj c + 1 /\
     history n lines = h ++ Frame lc ll lk :: b /\ balanced b /\
     matching lc e /\ e <> ch).
Proof.
  intros lines ch l k. split; [|intros e lc ll lk]; split.
  - intros H.
    destruct (scan_lines_inv _ _ H) as (n & c & R & _ & Cases).
    pose proof (run_open_in _ _ _ R) as O.
    destruct Cases as [[_ Rep]|(ch' & Cur & M & C & Cases)].
    + unfold report in Rep. destruct (stack (cs c)); discriminate.
    + destruct Cases as [[S0 E]|(st & f & e & _ & _ & _ & E)];
        [|discriminate].
      injection E as -> -> ->. exists n, c.
      repeat (split; [first [assumption|reflexivity]|]).
      rewrite S0 in O. now apply open_in_nil_balanced.
  - intros (n & c & R & Cur & M & C & -> & -> & B).
    pose proof (run_open_in _ _ _ R) as O.
    pose proof (open_in_unique _ _ _ O (open_none _ B)) as S0.
    now apply unexpected_at with (n := n).
  - intros H.
    destruct (scan_lines_inv _ _ H) as (n & c & R & _ & Cases).
    pose proof (run_open_in _ _ _ R) as O.
    destruct Cases as [[_ Rep]|(ch' & Cur & M & C & Cases)].
    + unfold report in Rep. destruct (stack (cs c)); discriminate.
    + destruct Cases as [[_ E]|(st & [fk fl fc] & e' & S1 & X & D & E)];
        [discriminate|].
      cbn [kind fline fcol] in *.
      injection E as -> -> -> -> -> -> ->.
      rewrite S1 in O.
      apply open_in_snoc_inv in O as (h & b & Eh & _ & B & _).
      exists n, c, h, b.
      repeat (split; [first [assumption|reflexivity]|]).
      split; [now apply closer_of_matching|assumption].
  - intros (n & c & h & b & R & Cur & M & C & -> & -> & Eh & B & Mt & D).
    pose proof (run_open_in _ _ _ R) as O.
    destruct (open_in_top _ _ _ _ _ O Eh (matching_opener _ _ Mt) B)
      as [st S1].
    apply closer_of_matching in Mt.
    apply (mismatched_at lines n c ch st (Frame lc ll lk) e); assumption.
Qed.

Lemma X14_meaning_of_closing_errors_witness :
  exists n c h b,
    run n [lit "{()]"] = Running c /\
    current [lit "{()]"] c = Some rbracket /\
    mode_of (cs c) = Normal /\ is_closer rbracket = true /\
    1 = ci c + 1 /\ 4 = cj c + 1 /\
    history n [lit "{()]"] = h ++ Frame lbrace 1 1 :: b /\ balanced b /\
    matching lbrace rbrace /\ rbrace <> rbracket.
Proof.
  apply (X14_meaning_of_closing_errors [lit "{()]"] rbracket 1 4).
  reflexivity.
Defined.

(** X15.  What the unclosed report means, in both directions.  It is
    given exactly when the scan reaches the end of the text with opening
    brackets left unmatched among the brackets examined in Normal mode:
    the reported bracket is the first of them (only balanced brackets
    were examined before it), the total is their number, and the last
    few are the last five of them at most. *)
Theorem X15_meaning_of_unclosed : forall lines f total few,
  scan_lines lines = Some (Unclosed f total few) <->
  exists n c st,
    run n lines = Running c /\ nth_error lines (ci c) = None /\
    open_in (history n lines) (f :: st) /\
    total = S (length st) /\ few = last_slice 5 (f :: st) /\
    exists b rest, history n lines = b ++ f :: rest /\ balanced b.
Proof.
  intros lines f total few. split.
  - intros H.
    destruct (scan_lines_inv _ _ H) as (n & c & R & _ & Cases).
    pose proof (run_open_in _ _ _ R) as O.
    destruct Cases as [[E Rep]|(ch & _ & _ & _ & [[_ D]|Mis])].
    + unfold report in Rep.
      destruct (stack (cs c)) as [|g st] eqn:Sk; [discriminate|].
      injection Rep as -> -> ->. exists n, c, st.
      repeat (split; [first [assumption|reflexivity]|]).
      eapply open_in_cons_inv; [exact O|reflexivity].
    + discriminate.
    + destruct Mis as (st & g & e & _ & _ & _ & D). discriminate.
  - intros (n & c & st & R & E & O & -> & -> & _).
    pose proof (open_in_unique _ _ _ (run_open_in _ _ _ R) O) as Sk.
    apply (run_halted lines (S n)). rewrite (run_succ _ _ _ R).
    unfold machine_step. rewrite E, Sk. reflexivity.
Qed.

Lemma X15_meaning_of_unclosed_witness :
  exists n c st,
    run n [lit "()["; lit "{}("] = Running c /\
    nth_error [lit "()["; lit "{}("] (ci c) = None /\
    open_in (history n [lit "()["; lit "{}("]) (Frame lbracket 1 3 :: st) /\
    2 = S (length st) /\
    [Frame lbracket 1 3; Frame lparen 2 3] =
      last_slice 5 (Frame lbracket 1 3 :: st) /\
    exists b rest,
      history n [lit "()["; lit "{}("] = b ++ Frame lbracket 1 3 :: rest /\
      balanced b.
Proof.
  apply (X15_meaning_of_unclosed [lit "()["; lit "{}("]
           (Frame lbracket 1 3) 2
           [Frame lbracket 1 3; Frame lparen 2 3]).
  reflexivity.
Defined.
